(** * censorjs: the interception engine of [src/censor.js]

    A shallow embedding of [src/censor.js] (CensorContext, CensorObject,
    CensorClass's constructor and [censor]) over a small model of the
    JavaScript object store, followed by the properties of the
    specification that were checked against it.

    The library rewrites members of live objects in place, so the model
    is an explicit store of objects: every object has a prototype link,
    string-keyed properties that are data or accessor properties with
    their attributes, an extensibility flag and, for functions, the
    closure that runs when it is called.  Library code is written in
    a state-and-exception monad over that store; each JavaScript method
    is one definition that follows the source statement by statement. *)

From Stdlib Require Import ZArith Lia.
From stdpp Require Import base option list strings gmap.

Open Scope string_scope.
Open Scope list_scope.

(** ** Values *)

(** Locations in the store. *)
Abbreviation loc := nat.

Inductive value :=
| VUndefined
| VNull
| VBool (b : bool)
| VNum (z : Z)          (* integral numbers only *)
| VBigInt (z : Z)
| VStr (s : string)
| VSymbol (n : nat)
| VRef (l : loc).       (* objects, arrays, functions, promises *)

#[global] Instance value_eq_dec : EqDecision value.
Proof. solve_decision. Defined.

(** Exceptions.  [new TypeError(msg)] is kept by its message; anything
    else that code outside the library throws is kept as a value. *)
Inductive error :=
| TypeError (msg : string)
| Thrown (v : value).

(** ** Functions

    Code that is not part of the library (original members, accessors,
    handles) is referred to by an index into a table of host functions.
    Every closure that the library itself creates is a constructor
    carrying its captured variables. *)
Inductive fn :=
| FHost (async : bool) (id : nat)
| FBuiltin (name : string)                (* a built-in that is never called *)
| FHasOwnProperty                         (* Object.prototype.hasOwnProperty *)
| FContextNext                            (* CensorContext.prototype.next *)
| FContextPass                            (* CensorContext.prototype.pass *)
| FCall                                   (* CensorObject.prototype.call *)
| FGetAttr                                (* CensorObject.prototype.getAttr *)
| FSetAttr                                (* CensorObject.prototype.setAttr *)
| FGenFunc                                (* CensorClass.prototype.genFunc *)
| FCallCallback (this : value) (name : string)
    (* whenCall: [(...args) => this.call(name, ...args)] *)
| FCallWrapper (async : bool) (ctx handle : value)
    (* whenCall: the replacement member [f] *)
| FGetWrapper (context originalObject : value) (name : string) (handles : value)
    (* whenAttr: [desc["get"]] *)
| FGetCallback (originalObject : value) (name : string)
    (* whenAttr: [() => originalObject.getAttr(name)] *)
| FSetWrapper (context originalObject : value) (name : string) (handles : value)
    (* whenAttr: [desc["set"]] *)
| FSetCallback (originalObject : value) (name : string)
    (* whenAttr: [(_asgn) => originalObject.setAttr(name, _asgn)] *)
| FGenerated (originalObject : value).
    (* genFunc: the replacement constructor *)

#[global] Instance fn_eq_dec : EqDecision fn.
Proof. solve_decision. Defined.

(** ** Objects and the store *)

Inductive prop :=
| PData (v : value) (writable enumerable configurable : bool)
| PAccessor (get set : value) (enumerable configurable : bool).

Inductive settled :=
| Fulfilled (v : value)
| Rejected (e : error).

Inductive kind :=
| KOrdinary
| KFunction (f : fn)
| KArray (elems : list value)
| KPromise (s : settled).

Record object := Obj {
  o_proto : value;                 (* [VNull] or [VRef] *)
  o_props : gmap string prop;      (* own string-keyed properties *)
  o_kind : kind;
  o_extensible : bool;
  o_toStringTag : option value     (* own [Symbol.toStringTag] property *)
}.

(** The store: the object at location [l] is the [l]-th entry. *)
Abbreviation heap := (list object).

(** A plain data property as created by assignment or a class field. *)
Definition field (v : value) : prop := PData v true true true.

Definition with_props (o : object) (ps : gmap string prop) : object :=
  Obj (o_proto o) ps (o_kind o) (o_extensible o) (o_toStringTag o).

(** ** The monad: store passing with exceptions

    [Throw] is a JavaScript exception; [Abort] ends a run that the model
    cannot follow (no call depth left, a language feature that is not
    modelled, or a store that no program can build). *)
Inductive abort := OutOfFuel | Unmodelled | IllFormed.

Inductive outcome (A : Type) :=
| Ret (a : A)
| Throw (e : error)
| Abort (a : abort).
Arguments Ret {A} a.
Arguments Throw {A} e.
Arguments Abort {A} a.

Definition M (A : Type) := heap -> outcome A * heap.

Definition ret {A} (a : A) : M A := fun h => (Ret a, h).
Definition throw {A} (e : error) : M A := fun h => (Throw e, h).
Definition abort_with {A} (a : abort) : M A := fun h => (Abort a, h).

Definition bind {A B} (c : M A) (k : A -> M B) : M B :=
  fun h => match c h with
           | (Ret a, h') => k a h'
           | (Throw e, h') => (Throw e, h')
           | (Abort a, h') => (Abort a, h')
           end.

Notation "'let!' x ':=' c 'in' k" := (bind c (fun x => k))
  (at level 10, x name, c at level 100, k at level 200).
Notation "c ';;;' k" := (bind c (fun _ => k))
  (at level 100, k at level 200, right associativity).

Definition caller := value -> value -> list value -> M value.
Definition hostfn := caller -> value -> list value -> M value.

(** ** The realm: objects that exist before any program runs *)

(** Only the built-in members that the library itself reads are
    present: [Object.prototype] has [constructor] and [hasOwnProperty]
    and nothing else (no [__proto__] accessor, [toString] or
    [valueOf]), and [Function.prototype] and [Array.prototype] have no
    properties of their own.  What depends on other inherited built-in
    members (the descriptor lookup on a function or an array as target,
    an assignment to the key [__proto__]) is outside what the realm
    models. *)

Definition ObjectPrototype : loc := 0.
Definition FunctionPrototype : loc := 1.
Definition ObjectCtor : loc := 2.
Definition hasOwnPropertyFn : loc := 3.
Definition AsyncFunctionPrototype : loc := 4.
Definition ArrayPrototype : loc := 5.
Definition CensorContextPrototype : loc := 6.
Definition nextFn : loc := 7.
Definition passFn : loc := 8.
Definition CensorObjectPrototype : loc := 9.
Definition callFn : loc := 10.
Definition getAttrFn : loc := 11.
Definition setAttrFn : loc := 12.
Definition CensorClassPrototype : loc := 13.
Definition genFuncFn : loc := 14.
Definition window : loc := 15.

(** Methods are writable, not enumerable, configurable. *)
Definition method (l : loc) : prop := PData (VRef l) true false true.

Definition builtin (f : fn) : object :=
  Obj (VRef FunctionPrototype) ∅ (KFunction f) true None.

Definition realm : heap :=
  [ Obj VNull
      (<["constructor" := method ObjectCtor]>
       (<["hasOwnProperty" := method hasOwnPropertyFn]> ∅))
      KOrdinary true None
  ; Obj (VRef ObjectPrototype) ∅ (KFunction (FBuiltin "Function.prototype"))
      true None
  ; Obj (VRef FunctionPrototype)
      (<["prototype" := PData (VRef ObjectPrototype) false false false]>
       (<["name" := PData (VStr "Object") false false true]> ∅))
      (KFunction (FBuiltin "Object")) true None
  ; builtin FHasOwnProperty
  ; Obj (VRef FunctionPrototype) ∅ KOrdinary true (Some (VStr "AsyncFunction"))
  ; Obj (VRef ObjectPrototype) ∅ (KArray []) true None
  ; Obj (VRef ObjectPrototype)
      (<["next" := method nextFn]> (<["pass" := method passFn]> ∅))
      KOrdinary true None
  ; builtin FContextNext
  ; builtin FContextPass
  ; Obj (VRef ObjectPrototype)
      (<["call" := method callFn]>
       (<["getAttr" := method getAttrFn]>
        (<["setAttr" := method setAttrFn]> ∅)))
      KOrdinary true None
  ; builtin FCall
  ; builtin FGetAttr
  ; builtin FSetAttr
  ; Obj (VRef ObjectPrototype) (<["genFunc" := method genFuncFn]> ∅)
      KOrdinary true None
  ; builtin FGenFunc
  ; Obj (VRef ObjectPrototype) ∅ KOrdinary true None ].

(** ** Store primitives *)

Definition alloc (o : object) : M value :=
  fun h => (Ret (VRef (length h)), h ++ [o]).

Definition get_obj (l : loc) : M object :=
  fun h => match h !! l with
           | Some o => (Ret o, h)
           | None => (Abort IllFormed, h)
           end.

Definition set_own (l : loc) (key : string) (p : prop) : M unit :=
  fun h => match h !! l with
           | Some o => (Ret tt, <[l := with_props o (<[key := p]> (o_props o))]> h)
           | None => (Abort IllFormed, h)
           end.

(** An ordinary object [{}], a closure, and an array. *)
Definition plain : object := Obj (VRef ObjectPrototype) ∅ KOrdinary true None.

Definition closure (async : bool) (f : fn) : object :=
  Obj (VRef (if async then AsyncFunctionPrototype else FunctionPrototype))
      ∅ (KFunction f) true None.

Definition array (elems : list value) : object :=
  Obj (VRef ArrayPrototype) ∅ (KArray elems) true None.

(** ** Operators of the language *)

(** [typeof v] *)
Definition typeof (h : heap) (v : value) : string :=
  match v with
  | VUndefined => "undefined"
  | VNull => "object"
  | VBool _ => "boolean"
  | VNum _ => "number"
  | VBigInt _ => "bigint"
  | VStr _ => "string"
  | VSymbol _ => "symbol"
  | VRef l => match h !! l with
              | Some (Obj _ _ (KFunction _) _ _) => "function"
              | _ => "object"
              end
  end.

Definition typeof_m (v : value) : M string := fun h => (Ret (typeof h v), h).

(** ToBoolean *)
Definition to_boolean (v : value) : bool :=
  match v with
  | VUndefined | VNull => false
  | VBool b => b
  | VNum z | VBigInt z => negb (Z.eqb z 0)
  | VStr s => negb (String.eqb s "")
  | VSymbol _ | VRef _ => true
  end.

(** [a === b] *)
Definition strict_eq (a b : value) : bool := bool_decide (a = b).

(** Walk the prototype chain from [o] for the first object that owns
    [key].  [None]: the chain is longer than [k] or leaves the store (no
    program can build that); [Some None]: the chain ends without [key]. *)
Fixpoint lookup_chain (k : nat) (h : heap) (o : value) (key : string)
  : option (option (loc * prop)) :=
  match o with
  | VNull => Some None
  | VRef l =>
      match k with
      | O => None
      | S k' =>
          match h !! l with
          | None => None
          | Some ob =>
              match o_props ob !! key with
              | Some p => Some (Some (l, p))
              | None => lookup_chain k' h (o_proto ob) key
              end
          end
      end
  | _ => None
  end.

(** The prototype chain search of a property access on the store [h]. *)
Definition find_prop (o : value) (key : string) : M (option (loc * prop)) :=
  fun h => match lookup_chain (length h) h o key with
           | Some r => (Ret r, h)
           | None => (Abort IllFormed, h)
           end.

(** The same search for the [Symbol.toStringTag] property. *)
Fixpoint lookup_tag (k : nat) (h : heap) (o : value) : option (option value) :=
  match o with
  | VNull => Some None
  | VRef l =>
      match k with
      | O => None
      | S k' =>
          match h !! l with
          | None => None
          | Some ob =>
              match o_toStringTag ob with
              | Some v => Some (Some v)
              | None => lookup_tag k' h (o_proto ob)
              end
          end
      end
  | _ => None
  end.

(** [o[Symbol.toStringTag]] for an object [o] *)
Definition get_toStringTag (o : value) : M value :=
  fun h => match lookup_tag (length h) h o with
           | Some (Some v) => (Ret v, h)
           | Some None => (Ret VUndefined, h)
           | None => (Abort IllFormed, h)
           end.

(** ** [static typeCheck(obj, typ)] *)
Definition typeCheck (obj : value) (typ : string) : M unit :=
  let! t := typeof_m obj in
  if negb (bool_decide (t = typ)) then
    let! t := typeof_m obj in
    throw (TypeError ("Got " +:+ t +:+ " expected " +:+ typ))
  else ret tt.

Section Semantics.

(** The table of host functions. *)
Variable env : nat -> option hostfn.

Section WithCaller.

(** How a function value is applied to a receiver and arguments. *)
Variable call : caller.

(** [o[key]] *)
Definition js_get (o : value) (key : string) : M value :=
  match o with
  | VUndefined => throw (TypeError "Cannot read properties of undefined")
  | VNull => throw (TypeError "Cannot read properties of null")
  | VRef _ =>
      let! r := find_prop o key in
      match r with
      | None => ret VUndefined
      | Some (_, PData v _ _ _) => ret v
      | Some (_, PAccessor g _ _ _) =>
          match g with
          | VUndefined => ret VUndefined
          | _ => call g o []
          end
      end
  | _ => abort_with Unmodelled     (* property reads on primitives *)
  end.

(** A failed assignment: an exception in strict code, nothing otherwise. *)
Definition assign_fail (strict : bool) (msg : string) : M unit :=
  if strict then throw (TypeError msg) else ret tt.

(** Add a data property to the receiver of an assignment. *)
Definition create_data_property (strict : bool) (l : loc) (key : string)
    (v : value) : M unit :=
  let! ob := get_obj l in
  if o_extensible ob then set_own l key (field v)
  else assign_fail strict "Cannot add property, object is not extensible".

(** [o[key] = v] *)
Definition js_set (strict : bool) (o : value) (key : string) (v : value)
  : M unit :=
  match o with
  | VUndefined => throw (TypeError "Cannot set properties of undefined")
  | VNull => throw (TypeError "Cannot set properties of null")
  | VRef l =>
      let! r := find_prop o key in
      match r with
      | None => create_data_property strict l key v
      | Some (l', PData _ w e c) =>
          if negb w then
            assign_fail strict "Cannot assign to read only property"
          else if decide (l' = l) then set_own l key (PData v w e c)
          else create_data_property strict l key v
      | Some (_, PAccessor _ s _ _) =>
          match s with
          | VUndefined =>
              assign_fail strict
                "Cannot set property which has only a getter"
          | _ => let! _ := call s o [v] in ret tt
          end
      end
  | _ => abort_with Unmodelled     (* assignments to primitives *)
  end.

(** [o.key(...args)] *)
Definition call_method (o : value) (key : string) (args : list value)
  : M value :=
  let! f := js_get o key in
  call f o args.

(** [...v] in an argument list; only arrays are modelled. *)
Definition spread (v : value) : M (list value) :=
  match v with
  | VRef l =>
      let! ob := get_obj l in
      match o_kind ob with
      | KArray elems => ret elems
      | _ => throw (TypeError "Spread syntax requires an iterable")
      end
  | VStr _ => abort_with Unmodelled
  | _ => throw (TypeError "Spread syntax requires an iterable")
  end.

(** Promises.  A promise is kept by its settlement, so [await] reads it
    at once; the order in which pending work is scheduled is not part of
    the model. *)
Definition promise_state (h : heap) (v : value) : option settled :=
  match v with
  | VRef l =>
      match h !! l with
      | Some (Obj _ _ (KPromise s) _ _) => Some s
      | _ => None
      end
  | _ => None
  end.

Definition promise (s : settled) : object := Obj VNull ∅ (KPromise s) true None.

(** Resolving a new promise with [v]: it follows [v] when [v] is a
    promise and is fulfilled with [v] otherwise. *)
Definition settle (v : value) : M value :=
  fun h =>
    match promise_state h v with
    | Some s => alloc (promise s) h
    | None => alloc (promise (Fulfilled v)) h
    end.

(** An [async] function: the completion of the body settles the promise
    that the call returns. *)
Definition as_async (body : M value) : M value :=
  fun h =>
    match body h with
    | (Ret v, h') => settle v h'
    | (Throw e, h') => alloc (promise (Rejected e)) h'
    | (Abort a, h') => (Abort a, h')
    end.

(** [await v] *)
Definition await (v : value) : M value :=
  fun h =>
    match promise_state h v with
    | Some (Fulfilled r) => (Ret r, h)
    | Some (Rejected e) => (Throw e, h)
    | None => (Ret v, h)
    end.

(** ** Built-in functions of [Object] *)

(** Object.prototype.hasOwnProperty *)
Definition hasOwnProperty (this : value) (args : list value) : M value :=
  match this with
  | VRef l =>
      match args with
      | VStr key :: _ =>
          let! ob := get_obj l in
          ret (VBool (bool_decide (is_Some (o_props ob !! key))))
      | _ => abort_with Unmodelled
      end
  | VUndefined | VNull =>
      throw (TypeError "Cannot convert undefined or null to object")
  | _ => abort_with Unmodelled
  end.

(** The descriptor object built from a property. *)
Definition descriptor_of (p : prop) : object :=
  match p with
  | PData v w e c =>
      with_props plain
        (<["value" := field v]>
         (<["writable" := field (VBool w)]>
          (<["enumerable" := field (VBool e)]>
           (<["configurable" := field (VBool c)]> ∅))))
  | PAccessor g s e c =>
      with_props plain
        (<["get" := field g]>
         (<["set" := field s]>
          (<["enumerable" := field (VBool e)]>
           (<["configurable" := field (VBool c)]> ∅))))
  end.

(** Object.getOwnPropertyDescriptor *)
Definition getOwnPropertyDescriptor (obj name : value) : M value :=
  match obj with
  | VRef l =>
      match name with
      | VStr key =>
          let! ob := get_obj l in
          match o_props ob !! key with
          | Some p => alloc (descriptor_of p)
          | None => ret VUndefined
          end
      | _ => abort_with Unmodelled
      end
  | VUndefined | VNull =>
      throw (TypeError "Cannot convert undefined or null to object")
  | _ => abort_with Unmodelled
  end.

(** Object.getPrototypeOf *)
Definition getPrototypeOf (obj : value) : M value :=
  match obj with
  | VRef l => let! ob := get_obj l in ret (o_proto ob)
  | VUndefined | VNull =>
      throw (TypeError "Cannot convert undefined or null to object")
  | _ => abort_with Unmodelled
  end.

(** The [get] or [set] field of a descriptor object, if it has one. *)
Definition accessor_field (desc : value) (key msg : string)
  : M (option value) :=
  let! r := find_prop desc key in
  match r with
  | None => ret None
  | Some _ =>
      let! v := js_get desc key in
      let! t := typeof_m v in
      if bool_decide (t = "function") || bool_decide (v = VUndefined)
      then ret (Some v)
      else throw (TypeError msg)
  end.

(** A descriptor field that the library never writes. *)
Definition absent_field (desc : value) (key : string) : M unit :=
  let! r := find_prop desc key in
  match r with
  | None => ret tt
  | Some _ => abort_with Unmodelled
  end.

(** ToPropertyDescriptor, for descriptors with [get] and [set] only. *)
Definition to_property_descriptor (desc : value)
  : M (option value * option value) :=
  match desc with
  | VRef _ =>
      absent_field desc "enumerable";;;
      absent_field desc "configurable";;;
      absent_field desc "value";;;
      absent_field desc "writable";;;
      let! g := accessor_field desc "get" "Getter must be a function" in
      let! s := accessor_field desc "set" "Setter must be a function" in
      ret (g, s)
  | _ => throw (TypeError "Property description must be an object")
  end.

(** A field of the new descriptor agrees with the current property. *)
Definition same_or_absent (cur : value) (new : option value) : bool :=
  match new with
  | None => true
  | Some v => bool_decide (v = cur)
  end.

(** The own-property definition step of Object.defineProperty, for a
    descriptor that holds at most [get] and [set]. *)
Definition define_own (l : loc) (key : string)
    (d : option value * option value) : M unit :=
  let (dget, dset) := d in
  let! ob := get_obj l in
  match o_props ob !! key with
  | None =>
      if o_extensible ob then
        match dget, dset with
        | None, None => set_own l key (PData VUndefined false false false)
        | _, _ =>
            set_own l key
              (PAccessor (default VUndefined dget) (default VUndefined dset)
                         false false)
        end
      else throw (TypeError "Cannot define property, object is not extensible")
  | Some cur =>
      match dget, dset with
      | None, None => ret tt
      | _, _ =>
          match cur with
          | PData _ _ e c =>
              if c then
                set_own l key
                  (PAccessor (default VUndefined dget)
                             (default VUndefined dset) e c)
              else throw (TypeError "Cannot redefine property")
          | PAccessor g s e c =>
              if c then
                set_own l key (PAccessor (default g dget) (default s dset) e c)
              else if same_or_absent g dget && same_or_absent s dset
              then ret tt
              else throw (TypeError "Cannot redefine property")
          end
      end
  end.

(** Object.defineProperty *)
Definition defineProperty (obj name desc : value) : M value :=
  match obj with
  | VRef l =>
      match name with
      | VStr key =>
          let! d := to_property_descriptor desc in
          define_own l key d;;;
          ret obj
      | _ => abort_with Unmodelled
      end
  | _ => throw (TypeError "Object.defineProperty called on non-object")
  end.

(** [v instanceof Object]: is [Object.prototype] on the prototype chain
    of [v]? *)
Fixpoint proto_reaches (k : nat) (h : heap) (o : value) (target : loc)
  : option bool :=
  match o with
  | VNull => Some false
  | VRef l =>
      if decide (l = target) then Some true
      else match k with
           | O => None
           | S k' =>
               match h !! l with
               | None => None
               | Some ob => proto_reaches k' h (o_proto ob) target
               end
           end
  | _ => None
  end.

Definition instanceof_Object (v : value) : M bool :=
  match v with
  | VRef l =>
      let! ob := get_obj l in
      fun h => match proto_reaches (length h) h (o_proto ob) ObjectPrototype with
               | Some b => (Ret b, h)
               | None => (Abort IllFormed, h)
               end
  | _ => ret false
  end.

(** ** class CensorContext *)

(** [constructor(parent, name)] *)
Definition new_CensorContext (parent name : value) : M value :=
  let! this :=
    alloc (Obj (VRef CensorContextPrototype)
               (<["args" := field VUndefined]>
                (<["parent" := field VUndefined]>
                 (<["callback" := field VUndefined]> ∅)))
               KOrdinary true None) in
  typeCheck name "string";;;
  js_set true this "parent" parent;;;
  js_set true this "name" name;;;
  ret this.

(** [next(...args)] *)
Definition CensorContext_next (this : value) (args : list value) : M value :=
  call_method this "callback" args.

(** [pass()] *)
Definition CensorContext_pass (this : value) : M value :=
  let! next := js_get this "next" in
  let! a := js_get this "args" in
  let! args := spread a in
  call next this args.

(** ** class CensorObject *)

Definition string_arg (v : value) : M string :=
  match v with
  | VStr s => ret s
  | _ => abort_with Unmodelled     (* string conversion of other values *)
  end.

(** [static getPropertyDescriptor(obj, name, maxdepth = 10)] *)
Fixpoint getPropertyDescriptor_loop (fuel : nat) (obj name : value)
    (depth maxdepth : nat) : M value :=
  let! c := js_get obj "constructor" in
  if negb (strict_eq c (VRef ObjectCtor)) && (depth <=? maxdepth)%nat then
    match fuel with
    | O => abort_with OutOfFuel
    | S fuel' =>
        let! own := call_method obj "hasOwnProperty" [name] in
        if to_boolean own then getOwnPropertyDescriptor obj name
        else
          let! obj' := getPrototypeOf obj in
          getPropertyDescriptor_loop fuel' obj' name (S depth) maxdepth
    end
  else ret VNull.

Definition getPropertyDescriptor (obj name : value) (maxdepth : nat)
  : M value :=
  getPropertyDescriptor_loop (S maxdepth) obj name 0 maxdepth.

(** [constructor(object)] *)
Definition new_CensorObject (object : value) : M value :=
  let! this :=
    alloc (Obj (VRef CensorObjectPrototype) (<["object" := field VUndefined]> ∅)
               KOrdinary true None) in
  typeCheck object "object";;;
  js_set true this "object" object;;;
  ret this.

(** [call(name, ...args)] *)
Definition CensorObject_call (this name : value) (args : list value)
  : M value :=
  let! o := js_get this "object" in
  let! nm := string_arg name in
  call_method o ("_CENSOR_" +:+ nm) args.

(** [getAttr(name)] *)
Definition CensorObject_getAttr (this name : value) : M value :=
  let! o := js_get this "object" in
  let! nm := string_arg name in
  call_method o ("_CENSOR_get_" +:+ nm) [].

(** [setAttr(name, asgn)] *)
Definition CensorObject_setAttr (this name asgn : value) : M value :=
  let! o := js_get this "object" in
  let! nm := string_arg name in
  call_method o ("_CENSOR_set_" +:+ nm) [asgn];;;
  ret VUndefined.

(** [whenCall(name, handle)] *)
Definition whenCall (this name handle : value) : M value :=
  typeCheck name "string";;;
  let! nm := string_arg name in
  let! o := js_get this "object" in
  let! m := js_get o nm in
  typeCheck m "function";;;
  typeCheck handle "function";;;
  let! o := js_get this "object" in
  let! archived := call_method o "hasOwnProperty" [VStr ("_CENSOR_" +:+ nm)] in
  (if negb (to_boolean archived) then
     let! o := js_get this "object" in
     let! o' := js_get this "object" in
     let! m := js_get o' nm in
     js_set true o ("_CENSOR_" +:+ nm) m     (* Override old hooks *)
   else ret tt);;;
  let! ctx := new_CensorContext this name in
  let! callback := alloc (closure false (FCallCallback this nm)) in
  js_set true ctx "callback" callback;;;
  let! tag := get_toStringTag handle in
  let! f := alloc (closure (strict_eq tag (VStr "AsyncFunction"))
                           (FCallWrapper (strict_eq tag (VStr "AsyncFunction"))
                                         ctx handle)) in
  let! o := js_get this "object" in
  js_set true o nm f;;;
  ret this.

(** [whenAttr(name, handles)] *)
Definition whenAttr (this name handles : value) : M value :=
  typeCheck name "string";;;
  typeCheck handles "object";;;
  let! nm := string_arg name in
  let! o := js_get this "object" in
  let! description := getPropertyDescriptor o name 10 in
  let! o := js_get this "object" in
  let! s := js_get description "set" in
  js_set true o ("_CENSOR_set_" +:+ nm) s;;;
  let! o := js_get this "object" in
  let! g := js_get description "get" in
  js_set true o ("_CENSOR_get_" +:+ nm) g;;;
  let originalObject := this in
  let! desc := alloc plain in
  let! context := new_CensorContext this name in
  let! has_get := call_method handles "hasOwnProperty" [VStr "get"] in
  (if to_boolean has_get then
     let! f := alloc (closure false
                        (FGetWrapper context originalObject nm handles)) in
     js_set true desc "get" f
   else ret tt);;;
  let! has_set := call_method handles "hasOwnProperty" [VStr "set"] in
  (if to_boolean has_set then
     let! f := alloc (closure false
                        (FSetWrapper context originalObject nm handles)) in
     js_set true desc "set" f
   else ret tt);;;
  let! o := js_get this "object" in
  defineProperty o name desc;;;
  ret this.

(** ** class CensorClass: the constructor *)

(** [genFunc()] *)
Definition CensorClass_genFunc (this : value) : M value :=
  let originalObject := this in
  alloc (closure false (FGenerated originalObject)).

(** [constructor(cls, accessName = null, implementOn = window)]; the
    three private registries are kept under their [#] names. *)
Definition new_CensorClass (cls accessName implementOn : value) : M value :=
  let accessName :=
    match accessName with VUndefined => VNull | _ => accessName end in
  let implementOn :=
    match implementOn with VUndefined => VRef window | _ => implementOn end in
  let! this :=
    alloc (Obj (VRef CensorClassPrototype)
               (<["cls" := field VUndefined]>
                (<["name" := field VUndefined]> ∅))
               KOrdinary true None) in
  typeCheck cls "function";;;
  js_set true this "cls" cls;;;
  let! nm := match accessName with
             | VNull => js_get cls "name"
             | _ => ret accessName
             end in
  js_set true this "name" nm;;;
  let! r := alloc plain in
  js_set true this "#eventHandles" r;;;
  let! r := alloc plain in
  js_set true this "#callHandles" r;;;
  let! r := alloc plain in
  js_set true this "#attrHandles" r;;;
  (if negb (strict_eq implementOn VNull) then
     let! key := js_get this "name" in
     let! g := call_method this "genFunc" [] in
     let! key := string_arg key in
     js_set true implementOn key g
   else ret tt);;;
  ret this.

(** ** [censor(obj, ...options)] *)
Definition censor (obj : value) (options : list value) : M value :=
  let! t := typeof_m obj in
  if bool_decide (t = "object") then new_CensorObject obj
  else
    let! is_object := instanceof_Object obj in
    if is_object then
      new_CensorClass obj (nth 0 options VUndefined) (nth 1 options VUndefined)
    else
      let! t := typeof_m obj in
      throw (TypeError ("Can't install censor on " +:+ t)).

(** ** Closures of the library and the built-in methods *)

Definition arg (i : nat) (args : list value) : value := nth i args VUndefined.

Definition dispatch (f : fn) (this : value) (args : list value) : M value :=
  match f with
  | FHost async id =>
      match env id with
      | Some body =>
          if async then as_async (body call this args)
          else body call this args
      | None => abort_with Unmodelled
      end
  | FBuiltin _ => abort_with Unmodelled
  | FHasOwnProperty => hasOwnProperty this args
  | FContextNext => CensorContext_next this args
  | FContextPass => CensorContext_pass this
  | FCall => CensorObject_call this (arg 0 args) (tail args)
  | FGetAttr => CensorObject_getAttr this (arg 0 args)
  | FSetAttr => CensorObject_setAttr this (arg 0 args) (arg 1 args)
  | FGenFunc => CensorClass_genFunc this
  | FCallCallback this' name =>
      (* (...args) => { return this.call(name, ...args) } *)
      call_method this' "call" (VStr name :: args)
  | FCallWrapper false ctx handle =>
      (* (...args) => { ctx.args = args; return handle(ctx, ...args) } *)
      let! a := alloc (array args) in
      js_set true ctx "args" a;;;
      call handle VUndefined (ctx :: args)
  | FCallWrapper true ctx handle =>
      (* async (...args) => { ctx.args = args
                              return await handle(ctx, ...args) } *)
      as_async (let! a := alloc (array args) in
                js_set true ctx "args" a;;;
                let! r := call handle VUndefined (ctx :: args) in
                await r)
  | FGetWrapper context originalObject name handles =>
      let! a := alloc (array []) in
      js_set true context "args" a;;;
      let! cb := alloc (closure false (FGetCallback originalObject name)) in
      js_set true context "callback" cb;;;
      call_method handles "get" [context]
  | FGetCallback originalObject name =>
      call_method originalObject "getAttr" [VStr name]
  | FSetWrapper context originalObject name handles =>
      let asgn := arg 0 args in
      let! a := alloc (array [asgn]) in
      js_set true context "args" a;;;
      let! cb := alloc (closure false (FSetCallback originalObject name)) in
      js_set true context "callback" cb;;;
      call_method handles "set" [context; asgn];;;
      ret VUndefined
  | FSetCallback originalObject name =>
      call_method originalObject "setAttr" [VStr name; arg 0 args]
  | FGenerated _ => abort_with Unmodelled
  end.

End WithCaller.

(** Function application, with a bound on the depth of nested calls. *)
Fixpoint call_fn (n : nat) (f this : value) (args : list value) : M value :=
  match f with
  | VRef l =>
      let! ob := get_obj l in
      match o_kind ob with
      | KFunction c =>
          match n with
          | O => abort_with OutOfFuel
          | S n' => dispatch (call_fn n') c this args
          end
      | _ => throw (TypeError "is not a function")
      end
  | _ => throw (TypeError "is not a function")
  end.

End Semantics.

(** * Reading the store

    Pure views of the store, used to state what the library's
    operations find and leave behind. *)

(** [o[key] = ...] on the own properties of [l]. *)
Definition store (h : heap) (l : loc) (key : string) (p : prop) : heap :=
  match h !! l with
  | Some o => <[l := with_props o (<[key := p]> (o_props o))]> h
  | None => h
  end.

(** The prototype chain search as a property access runs it. *)
Definition resolve (h : heap) (o : value) (key : string)
  : option (option (loc * prop)) :=
  lookup_chain (length h) h o key.

(** The own property [key] of the object at [l]. *)
Definition own (h : heap) (l : loc) (key : string) : option prop :=
  match h !! l with
  | Some ob => o_props ob !! key
  | None => None
  end.

(** The value of [o[key]] when no accessor is involved. *)
Definition data_lookup (h : heap) (o : value) (key : string) : option value :=
  match resolve h o key with
  | Some None => Some VUndefined
  | Some (Some (_, PData v _ _ _)) => Some v
  | _ => None
  end.

(** The closure of a function object. *)
Definition fn_of (h : heap) (v : value) : option fn :=
  match v with
  | VRef l => match h !! l with
              | Some (Obj _ _ (KFunction f) _ _) => Some f
              | _ => None
              end
  | _ => None
  end.

(** The closure that a method call [o.key(...)] runs. *)
Definition method_lookup (h : heap) (o : value) (key : string) : option fn :=
  match data_lookup h o key with
  | Some v => fn_of h v
  | None => None
  end.

(** The own property that [l[key] = v] writes, when the assignment
    reaches no setter and is not refused. *)
Definition assign_prop (h : heap) (l : loc) (key : string) (v : value)
  : option prop :=
  match h !! l, resolve h (VRef l) key with
  | Some ob, Some None => if o_extensible ob then Some (field v) else None
  | Some ob, Some (Some (l', PData _ true e c)) =>
      if decide (l' = l) then Some (PData v true e c)
      else if o_extensible ob then Some (field v) else None
  | _, _ => None
  end.

(** The realm below [window] is as the runtime and the library's class
    definitions create it. *)
Definition realm_ok (h : heap) : Prop :=
  forall l, l < window -> h !! l = realm !! l.

(** [h'] keeps every object of [h], except that the properties of [l]
    named in [K] may differ. *)
Definition frame (K : list string) (l : loc) (h h' : heap) : Prop :=
  forall i ob, h !! i = Some ob ->
    if decide (i = l) then
      exists ps, h' !! i = Some (with_props ob ps) /\
                 forall key, key ∉ K -> ps !! key = o_props ob !! key
    else h' !! i = Some ob.

(** The engine object that [new CensorObject(target)] builds. *)
Definition engine_object (target : value) : object :=
  Obj (VRef CensorObjectPrototype) (<["object" := field target]> ∅)
      KOrdinary true None.

(** The context object that [new CensorContext(parent, name)] builds,
    with [callback] and [args] as later assigned. *)
Definition context_object (parent : value) (name : string)
    (callback args : value) : object :=
  Obj (VRef CensorContextPrototype)
      (<["args" := field args]>
       (<["parent" := field parent]>
        (<["callback" := field callback]>
         (<["name" := field (VStr name)]> ∅))))
      KOrdinary true None.

(** ** The store after [whenCall] *)

(** What [whenCall] archives: nothing when the target already owns the
    shadow key, the member otherwise. *)
Definition archive_prop (h : heap) (l : loc) (nm : string) (m : value)
  : option (option prop) :=
  match own h l ("_CENSOR_" +:+ nm) with
  | Some _ => Some None
  | None => match assign_prop h l ("_CENSOR_" +:+ nm) m with
            | Some p => Some (Some p)
            | None => None
            end
  end.

Definition archived (h : heap) (l : loc) (nm : string) (parch : option prop)
  : heap :=
  match parch with
  | Some p => store h l ("_CENSOR_" +:+ nm) p
  | None => h
  end.

(** The context, its callback and the replacement member are the three
    objects added after [h]; the target [l] gets the shadow entry [parch]
    (if any) and the new slot [pslot]. *)
Definition whenCall_heap (h : heap) (e l : loc) (nm : string)
    (handle : value) (async : bool) (parch : option prop) (pslot : prop)
  : heap :=
  store (archived h l nm parch) l nm pslot
  ++ [ context_object (VRef e) nm (VRef (S (length h))) VUndefined
     ; closure false (FCallCallback (VRef e) nm)
     ; closure async (FCallWrapper async (VRef (length h)) handle) ].

(** Is the handle recognised as asynchronous? *)
Definition async_tag (tag : option value) : bool :=
  strict_eq (default VUndefined tag) (VStr "AsyncFunction").

(** The store on which the handle of a call wrapper starts: the
    argument array is allocated and assigned to [ctx.args]. *)
Definition wrapper_entry (h : heap) (ctx : loc) (args : list value) : heap :=
  store (h ++ [array args]) ctx "args" (field (VRef (length h))).

(** The handle [(ctx, ...args) => ctx.pass()]. *)
Definition pass_through : hostfn :=
  fun call _ args => call_method call (arg 0 args) "pass" [].

(** ** Targets of call interception *)

(** [e] is an engine around the ordinary object [l], whose member [nm]
    is the function [m], held in a data property on [l] or on one of its
    prototypes; [hasOwnProperty] is the built-in one. *)
Definition call_target (h : heap) (e l : loc) (nm : string) (m : value)
  : Prop :=
  realm_ok h /\ window <= l /\ window <= e /\ e <> l /\
  h !! e = Some (engine_object (VRef l)) /\
  method_lookup h (VRef l) "hasOwnProperty" = Some FHasOwnProperty /\
  data_lookup h (VRef l) nm = Some m /\
  typeof h m = "function".

(** The target has not been intercepted on [nm] yet, and accepts the
    shadow entry. *)
Definition unintercepted (h : heap) (l : loc) (nm : string) (m : value)
  : Prop :=
  own h l ("_CENSOR_" +:+ nm) = None /\
  is_Some (assign_prop h l ("_CENSOR_" +:+ nm) m).

(** [handle] is a function whose [Symbol.toStringTag] is [tag]. *)
Definition handle_tagged (h : heap) (handle : value) (tag : option value)
  : Prop :=
  typeof h handle = "function" /\ lookup_tag (length h) h handle = Some tag.

(** * An example program

    A class [C] with a method [m], an asynchronous method [am] and an
    accessor property [x] on its prototype, one instance of it, and a
    few handles. *)

Definition host_function (async : bool) (id : nat) : object :=
  closure async (FHost async id).

Definition ex_env : nat -> option hostfn := fun id =>
  match id with
  | 0 => (* m(a, b) { return a + b } *)
      Some (fun _ _ args =>
              ret (match args with
                   | VNum a :: VNum b :: _ => VNum (a + b)
                   | _ => VUndefined
                   end))
  | 1 => (* (ctx, ...args) => ctx.pass() *)
      Some pass_through
  | 2 => (* (ctx) => ctx *)
      Some (fun _ _ args => ret (arg 0 args))
  | 3 => (* get x() { return 7 } *)
      Some (fun _ _ _ => ret (VNum 7))
  | 4 => (* set x(v) { } *)
      Some (fun _ _ _ => ret VUndefined)
  | 5 => (* async (ctx) => (await ctx.pass()) + 1 *)
      Some (fun call _ args =>
              let! r := call_method call (arg 0 args) "pass" [] in
              let! v := await r in
              ret (match v with VNum z => VNum (z + 1) | _ => v end))
  | _ => None
  end.

Definition ex_C : loc := 16.
Definition ex_C_prototype : loc := 17.
Definition ex_m : loc := 18.
Definition ex_instance : loc := 19.
Definition ex_pass_handle : loc := 20.
Definition ex_ctx_handle : loc := 21.
Definition ex_getter : loc := 22.
Definition ex_setter : loc := 23.
Definition ex_am : loc := 24.
Definition ex_async_handle : loc := 25.
Definition ex_get_handles : loc := 26.
Definition ex_engine : loc := 27.

Definition ex_heap : heap :=
  realm ++
  [ Obj (VRef FunctionPrototype)
      (<["prototype" := PData (VRef ex_C_prototype) false false false]>
       (<["name" := PData (VStr "C") false false true]> ∅))
      (KFunction (FHost false 9)) true None
  ; Obj (VRef ObjectPrototype)
      (<["constructor" := method ex_C]>
       (<["m" := method ex_m]>
        (<["am" := method ex_am]>
         (<["x" := PAccessor (VRef ex_getter) (VRef ex_setter) false true]>
          ∅))))
      KOrdinary true None
  ; host_function false 0
  ; Obj (VRef ex_C_prototype) ∅ KOrdinary true None
  ; host_function false 1
  ; host_function false 2
  ; host_function false 3
  ; host_function false 4
  ; host_function true 0
  ; host_function true 5
  ; with_props plain (<["get" := field (VRef ex_pass_handle)]> ∅)
  ; engine_object (VRef ex_instance) ].


(** [inst.am] is wrapped with the asynchronous handle that adds one to
    what the original resolves to, called, and awaited. *)
Definition ex_async_call : M value :=
  whenCall (call_fn ex_env 9) (VRef ex_engine) (VStr "am")
    (VRef ex_async_handle);;;
  let! p := call_method (call_fn ex_env 9) (VRef ex_instance) "am"
              [VNum 1; VNum 2] in
  await p.

(** * The accessor-descriptor lookup *)

(** The first [k] objects of the prototype chain that starts at [o]. *)
Fixpoint levels (k : nat) (h : heap) (o : value) : list loc :=
  match k, o with
  | S k', VRef l =>
      match h !! l with
      | Some ob => l :: levels k' h (o_proto ob)
      | None => []
      end
  | _, _ => []
  end.

(** What is reached [k] prototype links above [o]. *)
Fixpoint ancestor (k : nat) (h : heap) (o : value) : option value :=
  match k with
  | O => Some o
  | S k' =>
      match o with
      | VRef l =>
          match h !! l with
          | Some ob => ancestor k' h (o_proto ob)
          | None => None
          end
      | _ => None
      end
  end.

(** The first own property [name] among the objects [ls]. *)
Fixpoint first_own (h : heap) (name : string) (ls : list loc) : option prop :=
  match ls with
  | [] => None
  | l :: ls' =>
      match own h l name with
      | Some p => Some p
      | None => first_own h name ls'
      end
  end.

(** The lookup in the words of the specification: the first own
    descriptor among at most 10 levels from the target, none otherwise. *)
Definition spec_getPropertyDescriptor (h : heap) (obj : value) (name : string)
  : option prop :=
  first_own h name (levels 10 h obj).

(** How a lookup result is returned: a fresh descriptor object, or
    [null]. *)
Definition descriptor_result (r : option prop) : M value :=
  match r with
  | Some p => alloc (descriptor_of p)
  | None => ret VNull
  end.

(** The lookup as the code runs it.  At each level the loop first
    compares [obj.constructor] with [Object] and stops when they are the
    same; otherwise it asks [obj.hasOwnProperty(name)]. *)
Inductive walk_result :=
| Found (p : prop)
| Stopped
| Exhausted.

Definition constructor_is_Object (h : heap) (l : loc) : bool :=
  bool_decide (data_lookup h (VRef l) "constructor" = Some (VRef ObjectCtor)).

Fixpoint walk (h : heap) (name : string) (ls : list loc) : walk_result :=
  match ls with
  | [] => Exhausted
  | l :: ls' =>
      if constructor_is_Object h l then Stopped
      else match own h l name with
           | Some p => Found p
           | None => walk h name ls'
           end
  end.

(** A level on which the two property reads of the loop run no code:
    [constructor] is a data property (or missing) and [hasOwnProperty] is
    the built-in method. *)
Definition regular_level (h : heap) (l : loc) : bool :=
  bool_decide (is_Some (data_lookup h (VRef l) "constructor"))
  && bool_decide (method_lookup h (VRef l) "hasOwnProperty"
                  = Some FHasOwnProperty).

(** The completion [r] of the lookup on the store [h], by the outcome of
    the walk over the levels [ls]; [next] is what follows the last of
    them on the chain. *)
Definition walk_outcome (h : heap) (name : string) (ls : list loc)
    (next : option value) (r : outcome value * heap) : Prop :=
  match walk h name ls with
  | Found p => r = (Ret (VRef (length h)), h ++ [descriptor_of p])
  | Stopped => r = (Ret VNull, h)
  | Exhausted =>
      match next with
      | Some VNull =>
          r = (Throw (TypeError "Cannot read properties of null"), h)
      | Some (VRef l') =>
          is_Some (data_lookup h (VRef l') "constructor") ->
          r = (Ret VNull, h)
      | _ => True
      end
  end.

(** A chain of eleven objects below a class prototype that has the
    accessor [x], and an object literal that has an accessor [x] of its
    own. *)
Definition ex_deep_heap : heap :=
  realm ++
  [ host_function false 9
  ; Obj (VRef ObjectPrototype)
      (<["constructor" := method 16]>
       (<["x" := PAccessor (VRef 16) VUndefined false true]> ∅))
      KOrdinary true None ]
  ++ map (fun i => Obj (VRef (17 + i)) ∅ KOrdinary true None) (seq 0 10).

Definition ex_deep_target : loc := 27.

Definition ex_literal_heap : heap :=
  realm ++
  [ host_function false 3
  ; with_props plain (<["x" := PAccessor (VRef 16) VUndefined true true]> ∅) ].

Definition ex_literal : loc := 17.

(** * Attribute interception *)

(** The accessors that a descriptor object reports. *)
Definition getter_of (p : prop) : value :=
  match p with
  | PAccessor g _ _ _ => g
  | PData _ _ _ _ => VUndefined
  end.

Definition setter_of (p : prop) : value :=
  match p with
  | PAccessor _ s _ _ => s
  | PData _ _ _ _ => VUndefined
  end.

(** The property that [Object.defineProperty] creates on an object that
    does not own the key, from a descriptor with [get] and [set] only. *)
Definition new_own_property (dget dset : option value) : prop :=
  match dget, dset with
  | None, None => PData VUndefined false false false
  | _, _ =>
      PAccessor (default VUndefined dget) (default VUndefined dset) false false
  end.

(** The store after [whenAttr(nm, handles)] on a target [l] that does
    not own [nm] and inherits the property [p]: the two shadow entries
    and the new own property on the target, and after [h] the descriptor
    that the lookup returned, the new descriptor [desc], the context and
    the wrappers of the entries that [handles] has. *)
Definition whenAttr_heap (h : heap) (e l : loc) (nm : string)
    (handles : value) (p : prop) (has_get has_set : bool) : heap :=
  let d := length h in
  let gw := S (S (S d)) in
  let sw := if has_get then S gw else gw in
  let dget := if has_get then Some (VRef gw) else None in
  let dset := if has_set then Some (VRef sw) else None in
  store
    (store (store h l ("_CENSOR_set_" +:+ nm) (field (setter_of p)))
       l ("_CENSOR_get_" +:+ nm) (field (getter_of p)))
    l nm (new_own_property dget dset)
  ++ [ descriptor_of p
     ; with_props plain
         ((if has_set then <["set" := field (VRef sw)]> else id)
            ((if has_get then <["get" := field (VRef gw)]> else id) ∅))
     ; context_object (VRef e) nm VUndefined VUndefined ]
  ++ (if has_get
      then [closure false (FGetWrapper (VRef (S (S d))) (VRef e) nm handles)]
      else [])
  ++ (if has_set
      then [closure false (FSetWrapper (VRef (S (S d))) (VRef e) nm handles)]
      else []).

(** [e] is an engine around the ordinary extensible object [l], which
    does not own [nm] but finds the property [p] for it on a prototype,
    within the bound of the lookup; neither shadow key is in use. *)
Definition attr_target (h : heap) (e l : loc) (nm : string) (p : prop)
  : Prop :=
  realm_ok h /\ window <= l /\ e <> l /\
  h !! e = Some (engine_object (VRef l)) /\
  (exists ob, h !! l = Some ob /\ o_extensible ob = true) /\
  own h l nm = None /\
  forallb (regular_level h) (levels 11 h (VRef l)) = true /\
  walk h nm (levels 11 h (VRef l)) = Found p /\
  own h l ("_CENSOR_set_" +:+ nm) = None /\
  is_Some (assign_prop h l ("_CENSOR_set_" +:+ nm) VUndefined) /\
  own h l ("_CENSOR_get_" +:+ nm) = None /\
  is_Some (assign_prop h l ("_CENSOR_get_" +:+ nm) VUndefined).

(** [hl] is an ordinary object, other than the target, that holds the
    handles: its [get] and [set] entries are present as the flags say. *)
Definition handles_record (h : heap) (hl l : loc) (has_get has_set : bool)
  : Prop :=
  hl <> l /\
  typeof h (VRef hl) = "object" /\
  method_lookup h (VRef hl) "hasOwnProperty" = Some FHasOwnProperty /\
  has_get = bool_decide (is_Some (own h hl "get")) /\
  has_set = bool_decide (is_Some (own h hl "set")).

(** The entry [key] of a descriptor object, as ToPropertyDescriptor
    reads it. *)
Definition descriptor_entry (h : heap) (ob : object) (key : string)
    (d : option value) : Prop :=
  match d with
  | Some f => o_props ob !! key = Some (field f) /\ typeof h f = "function"
  | None => o_props ob !! key = None
  end.

(** [x] of the example instance is intercepted twice with the handles
    [{ get: (ctx) => ctx.pass() }]. *)
Definition ex_whenAttr_once : M value :=
  whenAttr (call_fn ex_env 9) (VRef ex_engine) (VStr "x") (VRef ex_get_handles).

Definition ex_whenAttr_twice : M value :=
  ex_whenAttr_once;;; ex_whenAttr_once.



(** * Further uses of the engine *)


(** The handle [(ctx, ...args) => ctx.next(...g(args))], for a
    transformation [g] of the arguments. *)
Definition next_with (g : list value -> list value) : hostfn :=
  fun call _ args => call_method call (arg 0 args) "next" (g (tail args)).


(** The example program with two more handles. *)
Definition ex_env2 : nat -> option hostfn := fun id =>
  match id with
  | 6 => (* (ctx, ...args) => ctx.next(...args.reverse()) *)
      Some (next_with (@rev value))
  | 7 => (* () => { throw "refused" } *)
      Some (fun _ _ _ => throw (Thrown (VStr "refused")))
  | _ => ex_env id
  end.

Definition ex_throwing_handle : loc := 29.
Definition ex_async_throwing_handle : loc := 30.

Definition ex_heap2 : heap :=
  ex_heap ++
  [ host_function false 6
  ; host_function false 7
  ; host_function true 7 ].



(** The store on which the handle of an accessor wrapper starts: the
    argument array and the new callback are allocated and assigned to
    [context.args] and [context.callback]. *)
Definition accessor_entry (h : heap) (ctx : loc) (args : list value)
    (callback : fn) : heap :=
  store (wrapper_entry h ctx args ++ [closure false callback]) ctx "callback"
    (field (VRef (S (length h)))).

Definition ex_both_handles : loc := 31.

(** The example with the handles
    [{ get: (ctx) => ctx.pass(), set: (ctx, v) => ctx.pass() }]. *)
Definition ex_heap3 : heap :=
  ex_heap2 ++
  [ with_props plain
      (<["set" := field (VRef ex_pass_handle)]>
       (<["get" := field (VRef ex_pass_handle)]> ∅)) ].

(** * Class templates *)

(** [accessName ?? cls.name], when the name of the class is read
    without running a getter. *)
Definition access_name (h : heap) (cls accessName : value) : option value :=
  match accessName with
  | VUndefined | VNull => data_lookup h cls "name"
  | _ => Some accessName
  end.

(** The object that [implementOn = window] selects. *)
Definition implement_target (implementOn : value) : option loc :=
  match implementOn with
  | VUndefined => Some window
  | VRef l => Some l
  | _ => None
  end.

(** A class (or any function) in the sense of [censor]: a function
    object with [Object.prototype] on its prototype chain. *)
Definition class_value (h : heap) (cl : loc) : Prop :=
  typeof h (VRef cl) = "function" /\
  exists cob, h !! cl = Some cob /\
    proto_reaches (length h) h (o_proto cob) ObjectPrototype = Some true.

(** The template that [new CensorClass(cls, accessName, implementOn)]
    builds at [t]; its three registries are the next three objects. *)
Definition template_object (cls name : value) (t : loc) : object :=
  Obj (VRef CensorClassPrototype)
      (<["#attrHandles" := field (VRef (S (S (S t))))]>
       (<["#callHandles" := field (VRef (S (S t)))]>
        (<["#eventHandles" := field (VRef (S t))]>
         (<["name" := field name]>
          (<["cls" := field cls]>
           (<["cls" := field VUndefined]>
            (<["name" := field VUndefined]> ∅)))))))
      KOrdinary true None.

(** ** class CensorClass: the registrations *)

(** [whenCall(name, handle)] *)
Definition CensorClass_whenCall (call : caller) (this name handle : value)
  : M value :=
  let! registry := js_get call this "#callHandles" in
  let! key := string_arg name in
  js_set call true registry key handle;;;
  ret this.

(** [whenAttr(name, handles)] *)
Definition CensorClass_whenAttr (call : caller) (this name handles : value)
  : M value :=
  let! registry := js_get call this "#attrHandles" in
  let! key := string_arg name in
  js_set call true registry key handles;;;
  ret this.

(** [on(name, handle)] *)
Definition CensorClass_on (call : caller) (this name handle : value)
  : M value :=
  let! registry := js_get call this "#eventHandles" in
  let! key := string_arg name in
  js_set call true registry key handle;;;
  ret this.

(** The three registrations with the private field each one writes. *)
Definition registrations
  : list (string * (caller -> value -> value -> value -> M value)) :=
  [ ("#callHandles", CensorClass_whenCall)
  ; ("#attrHandles", CensorClass_whenAttr)
  ; ("#eventHandles", CensorClass_on) ].

(** The example after [censor(C, null, null)]. *)
Definition ex_template : loc := 28.

Definition ex_template_heap : heap :=
  ex_heap ++ [template_object (VRef ex_C) (VStr "C") ex_template;
              plain; plain; plain].

(** ** class CensorCallContext (deprecated) *)

(** [next(...args)]: [return this.parent.call(this.name, ...args)] *)
Definition CensorCallContext_next : hostfn :=
  fun call this args =>
    let! parent := js_get call this "parent" in
    let! f := js_get call parent "call" in
    let! name := js_get call this "name" in
    call f parent (name :: args).

(** [CensorCallContext.prototype]: it inherits from
    [CensorContext.prototype] and overrides [next]. *)
Definition CensorCallContext_prototype (ctor next : loc) : object :=
  Obj (VRef CensorContextPrototype)
      (<["constructor" := method ctor]> (<["next" := method next]> ∅))
      KOrdinary true None.

(** What [new CensorCallContext(parent, name)] builds through the
    inherited constructor, with [args] as later assigned; [callback] is
    never assigned. *)
Definition call_context_object (proto : loc) (parent : value) (name : string)
    (args : value) : object :=
  Obj (VRef proto) (o_props (context_object parent name VUndefined args))
      KOrdinary true None.

(** The example with a function that has no prototype, a target whose
    member [m] is archived under its shadow key, an engine around it,
    and a context of the deprecated class for it. *)
Definition ex_env4 : nat -> option hostfn := fun id =>
  match id with
  | 8 => Some CensorCallContext_next
  | _ => ex_env2 id
  end.

Definition ex_bare_function : loc := 32.
Definition ex_archived_target : loc := 33.
Definition ex_archived_engine : loc := 34.
Definition ex_CensorCallContext : loc := 35.
Definition ex_CensorCallContext_prototype : loc := 36.
Definition ex_CensorCallContext_next : loc := 37.
Definition ex_call_context : loc := 38.
Definition ex_call_context_args : loc := 39.

Definition ex_heap4 : heap :=
  ex_heap3 ++
  [ Obj VNull ∅ (KFunction (FHost false 0)) true None
  ; Obj (VRef ex_C_prototype)
      (<["_CENSOR_m" := field (VRef ex_m)]> ∅) KOrdinary true None
  ; engine_object (VRef ex_archived_target)
  ; Obj (VRef FunctionPrototype)
      (<["prototype" := PData (VRef ex_CensorCallContext_prototype)
                          false false false]> ∅)
      (KFunction (FHost false 9)) true None
  ; CensorCallContext_prototype ex_CensorCallContext ex_CensorCallContext_next
  ; host_function false 8
  ; call_context_object ex_CensorCallContext_prototype
      (VRef ex_archived_engine) "m" (VRef ex_call_context_args)
  ; array [VNum 1; VNum 2] ].

(** * The hash of the injection tooling *)

(** The 32-bit integer operators, on the mathematical value of a
    number. *)
Definition to_int32 (z : Z) : Z := ((z + 2 ^ 31) mod 2 ^ 32 - 2 ^ 31)%Z.
Definition to_uint32 (z : Z) : Z := (z mod 2 ^ 32)%Z.

(** [a ^ b] *)
Definition bit_xor (a b : Z) : Z := Z.lxor (to_int32 a) (to_int32 b).

(** [a & b] *)
Definition bit_and (a b : Z) : Z := Z.land (to_int32 a) (to_int32 b).

(** [a >>> n] *)
Definition unsigned_shift_right (a n : Z) : Z :=
  Z.shiftr (to_uint32 a) (Z.land n 31).

(** [Math.imul(a, b)] *)
Definition imul (a b : Z) : Z := to_int32 (to_int32 a * to_int32 b).

(** [cyrb53(str, seed = 0)]; [str] is given by its code units, as
    [charCodeAt] reads them. *)
Definition cyrb53_loop (h : Z * Z) (str : list Z) : Z * Z :=
  fold_left
    (fun '(h1, h2) ch =>
       (imul (bit_xor h1 ch) 2654435761, imul (bit_xor h2 ch) 1597334677))
    str h.

Definition cyrb53 (str : list Z) (seed : Z) : Z :=
  let h1 := bit_xor 0xdeadbeef seed in
  let h2 := bit_xor 0x41c6ce57 seed in
  let '(h1, h2) := cyrb53_loop (h1, h2) str in
  let h1 := imul (bit_xor h1 (unsigned_shift_right h1 16)) 2246822507 in
  let h1 := bit_xor h1 (imul (bit_xor h2 (unsigned_shift_right h2 13))
                          3266489909) in
  let h2 := imul (bit_xor h2 (unsigned_shift_right h2 16)) 2246822507 in
  let h2 := bit_xor h2 (imul (bit_xor h1 (unsigned_shift_right h1 13))
                          3266489909) in
  (4294967296 * bit_and 2097151 h2 + unsigned_shift_right h1 0)%Z.





(** ** The asynchronous example, step by step *)



(** * Lemmas on the monad and the store *)

Lemma bind_ret {A B} (c : M A) (k : A -> M B) h a h' :
  c h = (Ret a, h') -> bind c k h = k a h'.
Proof. intros E. unfold bind. now rewrite E. Qed.

Lemma bind_throw {A B} (c : M A) (k : A -> M B) h e h' :
  c h = (Throw e, h') -> bind c k h = (Throw e, h').
Proof. intros E. unfold bind. now rewrite E. Qed.

Lemma object_eta (ob : object) : with_props ob (o_props ob) = ob.
Proof. now destruct ob. Qed.

Lemma lookup_chain_mono k k' h o key r :
  lookup_chain k h o key = Some r -> k <= k' ->
  lookup_chain k' h o key = Some r.
Proof.
  revert k' o. induction k as [|k IH]; intros k' o E Hle.
  - destruct o; simpl in E; try discriminate.
    destruct k'; exact E.
  - destruct o; simpl in E; try discriminate.
    + destruct k'; exact E.
    + destruct k' as [|k']; [lia|]. simpl.
      destruct (h !! l) as [ob|]; [|discriminate].
      destruct (o_props ob !! key); [exact E|].
      apply IH; [exact E | lia].
Qed.

Lemma lookup_tag_mono k k' h o r :
  lookup_tag k h o = Some r -> k <= k' -> lookup_tag k' h o = Some r.
Proof.
  revert k' o. induction k as [|k IH]; intros k' o E Hle.
  - destruct o; simpl in E; try discriminate.
    destruct k'; exact E.
  - destruct o; simpl in E; try discriminate.
    + destruct k'; exact E.
    + destruct k' as [|k']; [lia|]. simpl.
      destruct (h !! l) as [ob|]; [|discriminate].
      destruct (o_toStringTag ob); [exact E|].
      apply IH; [exact E | lia].
Qed.

Lemma store_length h l key p : length (store h l key p) = length h.
Proof. unfold store. destruct (h !! l); [apply length_insert | reflexivity]. Qed.

Lemma store_lookup_ne h l key p i :
  i <> l -> store h l key p !! i = h !! i.
Proof.
  intros Hne. unfold store. destruct (h !! l); [|reflexivity].
  apply list_lookup_insert_ne. congruence.
Qed.

Lemma store_lookup_eq h l key p ob :
  h !! l = Some ob ->
  store h l key p !! l = Some (with_props ob (<[key := p]> (o_props ob))).
Proof.
  intros E. unfold store. rewrite E.
  apply list_lookup_insert_eq. eapply lookup_lt_Some; eauto.
Qed.

Lemma store_app_l h t l key p :
  l < length h -> store (h ++ t) l key p = store h l key p ++ t.
Proof.
  intros Hl. unfold store. rewrite lookup_app_l by exact Hl.
  destruct (h !! l) as [ob|] eqn:E; [|reflexivity].
  now rewrite insert_app_l.
Qed.

Lemma store_app_mid h x t key p :
  store (h ++ x :: t) (length h) key p
  = h ++ with_props x (<[key := p]> (o_props x)) :: t.
Proof.
  unfold store. rewrite list_lookup_middle by reflexivity.
  rewrite insert_app_r_alt by lia. now rewrite Nat.sub_diag.
Qed.

Lemma own_store_eq h l key p ob :
  h !! l = Some ob -> own (store h l key p) l key = Some p.
Proof.
  intros E. unfold own. rewrite (store_lookup_eq _ _ _ _ _ E). simpl.
  apply lookup_insert_eq.
Qed.

Lemma own_store_ne h l key key' p :
  key <> key' -> own (store h l key p) l key' = own h l key'.
Proof.
  intros Hne. unfold own. destruct (h !! l) as [ob|] eqn:E.
  - rewrite (store_lookup_eq _ _ _ _ _ E). simpl. now apply lookup_insert_ne.
  - unfold store. rewrite E. now rewrite E.
Qed.

Lemma own_app_l h t l key :
  l < length h -> own (h ++ t) l key = own h l key.
Proof. intros Hl. unfold own. now rewrite lookup_app_l. Qed.

(** ** Frames *)

Lemma frame_refl K l h : frame K l h h.
Proof.
  intros i ob E. destruct (decide (i = l)); [|exact E].
  exists (o_props ob). now rewrite object_eta.
Qed.

Lemma frame_length K l h h' : frame K l h h' -> length h <= length h'.
Proof.
  intros F. destruct (le_lt_dec (length h) (length h')) as [|Hlt]; [assumption|].
  destruct (lookup_lt_is_Some_2 h (length h')) as [ob E]; [lia|].
  specialize (F _ _ E). 
  assert (is_Some (h' !! length h')) as Hs.
  { destruct (decide (length h' = l)); [destruct F as (ps & F & _)|]; eauto. }
  apply lookup_lt_is_Some_1 in Hs. lia.
Qed.

Lemma frame_trans K l h1 h2 h3 :
  frame K l h1 h2 -> frame K l h2 h3 -> frame K l h1 h3.
Proof.
  intros F G i ob E. specialize (F _ _ E).
  destruct (decide (i = l)) as [->|Hne].
  - destruct F as (ps & E2 & Hps). specialize (G _ _ E2).
    rewrite decide_True in G by reflexivity.
    destruct G as (ps' & E3 & Hps'). exists ps'. split; [exact E3|].
    intros key Hk. rewrite Hps' by exact Hk. simpl. now apply Hps.
  - specialize (G _ _ F). now rewrite decide_False in G by exact Hne.
Qed.

Lemma frame_alloc K l h t : frame K l h (h ++ t).
Proof.
  intros i ob E. rewrite lookup_app_l by (eapply lookup_lt_Some; eauto).
  rewrite E. destruct (decide (i = l)); [|reflexivity].
  exists (o_props ob). now rewrite object_eta.
Qed.

Lemma frame_store K l h key p : key ∈ K -> frame K l h (store h l key p).
Proof.
  intros Hk i ob E. destruct (decide (i = l)) as [->|Hne].
  - exists (<[key := p]> (o_props ob)). split.
    + now apply store_lookup_eq.
    + intros key' Hk'. apply lookup_insert_ne. intros ->. contradiction.
  - rewrite store_lookup_ne by exact Hne. exact E.
Qed.

Lemma frame_weaken K K' l h h' :
  K ⊆ K' -> frame K l h h' -> frame K' l h h'.
Proof.
  intros Hsub F i ob E. specialize (F _ _ E).
  destruct (decide (i = l)); [|exact F].
  destruct F as (ps & E' & Hps). exists ps. split; [exact E'|].
  intros key Hk. apply Hps. intros Hin. apply Hk, Hsub, Hin.
Qed.

Lemma frame_lookup_other K l h h' i ob :
  frame K l h h' -> i <> l -> h !! i = Some ob -> h' !! i = Some ob.
Proof. intros F Hne E. specialize (F _ _ E). now rewrite decide_False in F. Qed.

Lemma frame_lookup_target K l h h' ob :
  frame K l h h' -> h !! l = Some ob ->
  exists ps, h' !! l = Some (with_props ob ps) /\
             forall key, key ∉ K -> ps !! key = o_props ob !! key.
Proof. intros F E. specialize (F _ _ E). now rewrite decide_True in F. Qed.

Lemma frame_lookup_chain K l h h' k o key r :
  frame K l h h' -> key ∉ K ->
  lookup_chain k h o key = Some r -> lookup_chain k h' o key = Some r.
Proof.
  intros F Hk. revert o. induction k as [|k IH]; intros o E.
  - destruct o; simpl in *; congruence.
  - destruct o; simpl in *; try congruence.
    destruct (h !! l0) as [ob|] eqn:El; [|discriminate].
    specialize (F _ _ El). destruct (decide (l0 = l)) as [->|Hne].
    + destruct F as (ps & -> & Hps). simpl. rewrite Hps by exact Hk.
      destruct (o_props ob !! key); [exact E | now apply IH].
    + rewrite F. destruct (o_props ob !! key); [exact E | now apply IH].
Qed.

Lemma frame_resolve K l h h' o key r :
  frame K l h h' -> key ∉ K ->
  resolve h o key = Some r -> resolve h' o key = Some r.
Proof.
  intros F Hk E. unfold resolve in *.
  eapply lookup_chain_mono; [eapply frame_lookup_chain; eauto|].
  eapply frame_length; eauto.
Qed.

Lemma frame_lookup_tag K l h h' o r :
  frame K l h h' ->
  lookup_tag (length h) h o = Some r -> lookup_tag (length h') h' o = Some r.
Proof.
  intros F E. eapply lookup_tag_mono; [|eapply frame_length; eauto].
  revert o E. generalize (length h) as k.
  induction k as [|k IH]; intros o E.
  - destruct o; simpl in *; congruence.
  - destruct o; simpl in *; try congruence.
    destruct (h !! l0) as [ob|] eqn:El; [|discriminate].
    specialize (F _ _ El). destruct (decide (l0 = l)) as [->|Hne].
    + destruct F as (ps & -> & Hps). simpl.
      destruct (o_toStringTag ob); [exact E | now apply IH].
    + rewrite F. destruct (o_toStringTag ob); [exact E | now apply IH].
Qed.

Lemma frame_fn_of K l h h' v f :
  frame K l h h' -> fn_of h v = Some f -> fn_of h' v = Some f.
Proof.
  intros F E. destruct v; simpl in *; try discriminate.
  destruct (h !! l0) as [ob|] eqn:El; [|discriminate].
  specialize (F _ _ El). destruct (decide (l0 = l)) as [->|Hne].
  - destruct F as (ps & -> & _). now destruct ob.
  - now rewrite F.
Qed.

Lemma typeof_function h v :
  typeof h v = "function" <-> exists f, fn_of h v = Some f.
Proof.
  destruct v; simpl; try (split; [discriminate | intros [? ?]; discriminate]).
  destruct (h !! l) as [[? ? [] ? ?]|]; split;
    try discriminate; try (intros [? ?]; discriminate); eauto.
Qed.

Lemma frame_typeof_function K l h h' v :
  frame K l h h' -> typeof h v = "function" -> typeof h' v = "function".
Proof.
  intros F E. apply typeof_function in E as [f E].
  apply typeof_function. exists f. eapply frame_fn_of; eauto.
Qed.

Lemma frame_realm_ok K l h h' :
  frame K l h h' -> window <= l -> realm_ok h -> realm_ok h'.
Proof.
  intros F Hl R i Hi. destruct (lookup_lt_is_Some_2 realm i) as [ob E].
  { simpl. unfold window in Hi. lia. }
  rewrite E. eapply frame_lookup_other; eauto; [lia|].
  now rewrite R.
Qed.

Lemma realm_ok_length h : realm_ok h -> window <= length h.
Proof.
  intros R. destruct (le_lt_dec window (length h)) as [|Hlt]; [assumption|].
  specialize (R (length h) Hlt).
  rewrite lookup_ge_None_2 in R by lia.
  apply eq_sym, lookup_ge_None_1 in R. simpl in R. unfold window in Hlt. lia.
Qed.

(** ** Property search *)

Lemma resolve_own h l ob key p :
  h !! l = Some ob -> o_props ob !! key = Some p ->
  resolve h (VRef l) key = Some (Some (l, p)).
Proof.
  intros E P. unfold resolve.
  assert (l < length h) by (eapply lookup_lt_Some; eauto).
  destruct (length h) as [|k]; [lia|]. simpl. now rewrite E, P.
Qed.

Lemma resolve_step h l ob key k r :
  h !! l = Some ob -> o_props ob !! key = None ->
  lookup_chain k h (o_proto ob) key = Some r -> k < length h ->
  resolve h (VRef l) key = Some r.
Proof.
  intros E P L Hk. unfold resolve.
  apply (lookup_chain_mono (S k)); [|lia]. simpl. now rewrite E, P.
Qed.

Lemma realm_ok_frame h :
  realm_ok h <-> frame [] window (take window realm) h.
Proof.
  split.
  - intros R i ob E.
    assert (i < window) as Hi.
    { apply lookup_lt_Some in E. rewrite length_take in E. lia. }
    rewrite decide_False by lia. rewrite R by exact Hi.
    rewrite lookup_take_lt in E by exact Hi. exact E.
  - intros F i Hi.
    destruct (lookup_lt_is_Some_2 realm i) as [ob E].
    { simpl. unfold window in Hi. lia. }
    rewrite E. eapply frame_lookup_other; [exact F | lia |].
    now rewrite lookup_take_lt.
Qed.

Lemma realm_chain h k o key r :
  realm_ok h ->
  lookup_chain k (take window realm) o key = Some r ->
  lookup_chain k h o key = Some r.
Proof.
  intros R E. apply realm_ok_frame in R.
  eapply frame_lookup_chain; eauto. apply not_elem_of_nil.
Qed.

Lemma realm_resolve h o key r :
  realm_ok h ->
  lookup_chain window (take window realm) o key = Some r ->
  resolve h o key = Some r.
Proof.
  intros R E. unfold resolve.
  eapply lookup_chain_mono; [eapply realm_chain; eauto|].
  now apply realm_ok_length.
Qed.

Lemma resolve_via_realm h l ob key r :
  realm_ok h -> window <= l -> h !! l = Some ob ->
  o_props ob !! key = None ->
  lookup_chain window (take window realm) (o_proto ob) key = Some r ->
  resolve h (VRef l) key = Some r.
Proof.
  intros R Hl E P L. eapply resolve_step; eauto using realm_chain.
  apply lookup_lt_Some in E. lia.
Qed.

Lemma realm_fn_of h l f :
  realm_ok h -> l < window -> fn_of realm (VRef l) = Some f ->
  fn_of h (VRef l) = Some f.
Proof. intros R Hl E. simpl in *. now rewrite R. Qed.

Lemma realm_ok_app t : realm_ok (realm ++ t).
Proof.
  intros l Hl. apply lookup_app_l. simpl. unfold window in Hl. lia.
Qed.

(** ** One step of each operation *)

Lemma typeCheck_ok v typ h :
  typeof h v = typ -> typeCheck v typ h = (Ret tt, h).
Proof.
  intros E. unfold typeCheck, bind, typeof_m. 
  now rewrite bool_decide_eq_true_2.
Qed.

Lemma typeCheck_fail v typ h :
  typeof h v <> typ ->
  typeCheck v typ h
  = (Throw (TypeError ("Got " +:+ typeof h v +:+ " expected " +:+ typ)), h).
Proof.
  intros E. unfold typeCheck, bind, typeof_m.
  now rewrite bool_decide_eq_false_2.
Qed.

Section Steps.

Variable env : nat -> option hostfn.

Lemma js_get_data (call : caller) h l key v :
  data_lookup h (VRef l) key = Some v ->
  js_get call (VRef l) key h = (Ret v, h).
Proof.
  unfold data_lookup, resolve, js_get, bind, find_prop. intros E.
  destruct (lookup_chain (length h) h (VRef l) key) as [[[l' []]|]|];
    simplify_eq; reflexivity.
Qed.

Lemma js_set_plain (call : caller) strict h l key v p :
  assign_prop h l key v = Some p ->
  js_set call strict (VRef l) key v h = (Ret tt, store h l key p).
Proof.
  unfold assign_prop, resolve, js_set, bind, find_prop, store.
  destruct (h !! l) as [ob|] eqn:El; [|discriminate].
  destruct (lookup_chain (length h) h (VRef l) key) as [[[l' []]|]|];
    try discriminate.
  - destruct writable; [|discriminate]. simpl.
    destruct (decide (l' = l)).
    + intros [= <-]. unfold set_own. now rewrite El.
    + unfold create_data_property, bind, get_obj. rewrite El.
      destruct (o_extensible ob); [|discriminate].
      intros [= <-]. unfold set_own. now rewrite El.
  - unfold create_data_property, bind, get_obj. rewrite El.
    destruct (o_extensible ob); [|discriminate].
    intros [= <-]. unfold set_own. now rewrite El.
Qed.

Lemma call_fn_dispatch n h f c this args :
  fn_of h f = Some c ->
  call_fn env (S n) f this args h
  = dispatch env (call_fn env n) c this args h.
Proof.
  intros E. destruct f; try discriminate. simpl in E.
  simpl. unfold bind, get_obj.
  destruct (h !! l) as [[? ? [] ? ?]|]; simplify_eq. reflexivity.
Qed.

Lemma call_method_dispatch n h l key c args :
  method_lookup h (VRef l) key = Some c ->
  call_method (call_fn env (S n)) (VRef l) key args h
  = dispatch env (call_fn env n) c (VRef l) args h.
Proof.
  unfold method_lookup. destruct (data_lookup h (VRef l) key) as [f|] eqn:E;
    [|discriminate].
  intros F. unfold call_method, bind. rewrite (js_get_data _ _ _ _ _ E).
  now apply call_fn_dispatch.
Qed.

Lemma call_method_hasOwnProperty n h l ob key :
  method_lookup h (VRef l) "hasOwnProperty" = Some FHasOwnProperty ->
  h !! l = Some ob ->
  call_method (call_fn env (S n)) (VRef l) "hasOwnProperty" [VStr key] h
  = (Ret (VBool (bool_decide (is_Some (o_props ob !! key)))), h).
Proof.
  intros Hm E. rewrite (call_method_dispatch _ _ _ _ _ _ Hm).
  simpl. unfold bind, get_obj. now rewrite E.
Qed.

Lemma data_lookup_own h l ob key v w e c :
  h !! l = Some ob -> o_props ob !! key = Some (PData v w e c) ->
  data_lookup h (VRef l) key = Some v.
Proof.
  intros E P. unfold data_lookup. now rewrite (resolve_own _ _ _ _ _ E P).
Qed.

Lemma assign_prop_own h l ob key v0 e c v :
  h !! l = Some ob -> o_props ob !! key = Some (PData v0 true e c) ->
  assign_prop h l key v = Some (PData v true e c).
Proof.
  intros E P. unfold assign_prop.
  rewrite E, (resolve_own _ _ _ _ _ E P). now rewrite decide_True.
Qed.

Lemma assign_prop_new h l ob key v :
  h !! l = Some ob -> o_extensible ob = true ->
  resolve h (VRef l) key = Some None ->
  assign_prop h l key v = Some (field v).
Proof. intros E X R. unfold assign_prop. now rewrite E, R, X. Qed.

Lemma new_CensorContext_ok (call : caller) h parent nm :
  realm_ok h ->
  new_CensorContext call parent (VStr nm) h
  = (Ret (VRef (length h)),
     h ++ [context_object parent nm VUndefined VUndefined]).
Proof.
  intros R. unfold new_CensorContext.
  erewrite bind_ret by reflexivity.
  erewrite bind_ret by (apply typeCheck_ok; reflexivity).
  assert (realm_ok (h ++ [Obj (VRef CensorContextPrototype)
               (<["args" := field VUndefined]>
                (<["parent" := field VUndefined]>
                 (<["callback" := field VUndefined]> ∅)))
               KOrdinary true None])) as R1.
  { eapply frame_realm_ok; [apply (frame_alloc [] window) | lia | exact R]. }
  pose proof (realm_ok_length _ R) as Hlen.
  erewrite bind_ret.
  2:{ apply js_set_plain. eapply assign_prop_own.
      - apply list_lookup_middle. reflexivity.
      - reflexivity. }
  rewrite store_app_mid. 
  erewrite bind_ret.
  2:{ apply js_set_plain. eapply assign_prop_new.
      - apply list_lookup_middle. reflexivity.
      - reflexivity.
      - eapply resolve_via_realm. 
        + eapply frame_realm_ok; [apply (frame_alloc [] window) | lia | exact R]. 
        + exact Hlen.
        + apply list_lookup_middle. reflexivity.
        + reflexivity.
        + reflexivity. }
  rewrite store_app_mid. reflexivity.
Qed.

End Steps.

(** ** [whenCall] on an ordinary target *)

Lemma resolve_is_Some h l key r :
  resolve h (VRef l) key = Some r -> is_Some (h !! l).
Proof.
  unfold resolve. destruct (length h); simpl; [discriminate|].
  destruct (h !! l); [eauto | discriminate].
Qed.

Lemma data_lookup_is_Some h l key v :
  data_lookup h (VRef l) key = Some v -> is_Some (h !! l).
Proof.
  unfold data_lookup. destruct (resolve h (VRef l) key) eqn:E; [|discriminate].
  intros _. eapply resolve_is_Some; eauto.
Qed.

Lemma string_length_append (s1 s2 : string) :
  String.length (s1 +:+ s2) = String.length s1 + String.length s2.
Proof. induction s1 as [|a s1 IH]; [reflexivity|]. simpl. f_equal. exact IH. Qed.

Lemma shadow_ne nm : nm <> "_CENSOR_" +:+ nm.
Proof.
  intros E. apply (f_equal String.length) in E.
  rewrite string_length_append in E. simpl in E. lia.
Qed.

Lemma frame_data_lookup K l h h' o key v :
  frame K l h h' -> key ∉ K ->
  data_lookup h o key = Some v -> data_lookup h' o key = Some v.
Proof.
  intros F Hk. unfold data_lookup.
  destruct (resolve h o key) as [r|] eqn:E; [|discriminate].
  now rewrite (frame_resolve _ _ _ _ _ _ _ F Hk E).
Qed.

Lemma frame_method_lookup K l h h' o key f :
  frame K l h h' -> key ∉ K ->
  method_lookup h o key = Some f -> method_lookup h' o key = Some f.
Proof.
  intros F Hk. unfold method_lookup.
  destruct (data_lookup h o key) as [v|] eqn:E; [|discriminate].
  rewrite (frame_data_lookup _ _ _ _ _ _ _ F Hk E).
  eapply frame_fn_of; eauto.
Qed.

Lemma frame_assign_prop K l h h' key v p :
  frame K l h h' -> key ∉ K ->
  assign_prop h l key v = Some p -> assign_prop h' l key v = Some p.
Proof.
  intros F Hk. unfold assign_prop.
  destruct (h !! l) as [ob|] eqn:E; [|discriminate].
  destruct (frame_lookup_target _ _ _ _ _ F E) as (ps & -> & _).
  destruct (resolve h (VRef l) key) as [r|] eqn:Er; [|discriminate].
  rewrite (frame_resolve _ _ _ _ _ _ _ F Hk Er). now destruct ob.
Qed.

Lemma archived_frame h l nm parch :
  frame ["_CENSOR_" +:+ nm] l h (archived h l nm parch).
Proof.
  destruct parch; simpl; [|apply frame_refl].
  apply frame_store. apply list_elem_of_singleton. reflexivity.
Qed.

Lemma archived_length h l nm parch : length (archived h l nm parch) = length h.
Proof. destruct parch; simpl; [apply store_length | reflexivity]. Qed.

Lemma get_toStringTag_ok h o tag :
  lookup_tag (length h) h o = Some tag ->
  get_toStringTag o h = (Ret (default VUndefined tag), h).
Proof. intros E. unfold get_toStringTag. rewrite E. now destruct tag. Qed.

Section WhenCall.

Variable env : nat -> option hostfn.
Variables (h : heap) (e l : loc) (nm : string) (m handle : value).
Variables (tag : option value) (parch : option prop) (pslot : prop).

Hypothesis Hrealm : realm_ok h.
Hypothesis Hl : window <= l.
Hypothesis Hne : e <> l.
Hypothesis Heng : h !! e = Some (engine_object (VRef l)).
Hypothesis Hhas :
  method_lookup h (VRef l) "hasOwnProperty" = Some FHasOwnProperty.
Hypothesis Hmember : data_lookup h (VRef l) nm = Some m.
Hypothesis Hcallable : typeof h m = "function".
Hypothesis Hhandle : typeof h handle = "function".
Hypothesis Htag : lookup_tag (length h) h handle = Some tag.
Hypothesis Harch : archive_prop h l nm m = Some parch.
Hypothesis Hslot : assign_prop h l nm (VRef (S (S (length h)))) = Some pslot.

Lemma engine_object_lookup h' :
  h' !! e = Some (engine_object (VRef l)) ->
  forall call, js_get call (VRef e) "object" h' = (Ret (VRef l), h').
Proof.
  intros E call. apply js_get_data. eapply data_lookup_own; eauto.
Qed.

Lemma whenCall_archive_step k :
  (let! o := js_get (call_fn env (S k)) (VRef e) "object" in
   let! has := call_method (call_fn env (S k)) o "hasOwnProperty"
                 [VStr ("_CENSOR_" +:+ nm)] in
   if negb (to_boolean has) then
     let! o := js_get (call_fn env (S k)) (VRef e) "object" in
     let! o' := js_get (call_fn env (S k)) (VRef e) "object" in
     let! m := js_get (call_fn env (S k)) o' nm in
     js_set (call_fn env (S k)) true o ("_CENSOR_" +:+ nm) m
   else ret tt) h
  = (Ret tt, archived h l nm parch).
Proof.
  destruct (data_lookup_is_Some _ _ _ _ Hmember) as [ob Eob].
  erewrite bind_ret by (apply engine_object_lookup; exact Heng).
  erewrite bind_ret by (eapply call_method_hasOwnProperty; eauto).
  unfold archive_prop, own in Harch. rewrite Eob in Harch.
  destruct (o_props ob !! ("_CENSOR_" +:+ nm)) as [p0|] eqn:Ep.
  - injection Harch as <-. rewrite bool_decide_eq_true_2 by eauto.
    reflexivity.
  - rewrite bool_decide_eq_false_2 by (intros [? ?]; discriminate).
    cbn [to_boolean negb].
    destruct (assign_prop h l ("_CENSOR_" +:+ nm) m) as [p|] eqn:Ea;
      [|discriminate].
    injection Harch as <-.
    erewrite bind_ret by (apply engine_object_lookup; exact Heng).
    erewrite bind_ret by (apply engine_object_lookup; exact Heng).
    erewrite bind_ret by (apply js_get_data; exact Hmember).
    now apply js_set_plain.
Qed.

Theorem whenCall_ok k :
  whenCall (call_fn env (S k)) (VRef e) (VStr nm) handle h
  = (Ret (VRef e),
     whenCall_heap h e l nm handle (async_tag tag) parch pslot).
Proof.
  unfold whenCall.
  erewrite bind_ret by (apply typeCheck_ok; reflexivity).
  erewrite bind_ret by reflexivity.
  erewrite bind_ret by (apply engine_object_lookup; exact Heng).
  erewrite bind_ret by (apply js_get_data; exact Hmember).
  erewrite bind_ret by (apply typeCheck_ok; exact Hcallable).
  erewrite bind_ret by (apply typeCheck_ok; exact Hhandle).
  pose proof (whenCall_archive_step k) as Hstep.
  unfold bind at 1. unfold bind at 1 in Hstep.
  destruct (js_get (call_fn env (S k)) (VRef e) "object" h) as [[o| |] h0];
    [| discriminate Hstep ..].
  unfold bind at 1. unfold bind at 1 in Hstep.
  destruct (call_method (call_fn env (S k)) o "hasOwnProperty"
              [VStr ("_CENSOR_" +:+ nm)] h0) as [[has| |] h1];
    [| discriminate Hstep ..].
  unfold bind at 1. rewrite Hstep. clear Hstep o h0 has h1.
  set (hA := archived h l nm parch).
  assert (frame ["_CENSOR_" +:+ nm] l h hA) as FA by apply archived_frame.
  assert (length hA = length h) as LA by apply archived_length.
  assert (realm_ok hA) as RA by (eapply frame_realm_ok; eauto).
  assert (forall t, frame ["_CENSOR_" +:+ nm] l h (hA ++ t)) as FT.
  { intros t. eapply frame_trans; [exact FA | apply frame_alloc]. }
  assert (nm ∉ ["_CENSOR_" +:+ nm]) as Hk.
  { rewrite list_elem_of_singleton. apply shadow_ne. }
  erewrite bind_ret by (apply new_CensorContext_ok; exact RA).
  erewrite bind_ret by reflexivity.
  rewrite <- app_assoc, length_app. simpl app. simpl length.
  erewrite bind_ret.
  2:{ apply js_set_plain. eapply assign_prop_own.
      - apply list_lookup_middle. reflexivity.
      - reflexivity. }
  rewrite store_app_mid.
  erewrite bind_ret by (apply get_toStringTag_ok; eapply frame_lookup_tag; eauto).
  erewrite bind_ret by reflexivity.
  rewrite <- app_assoc, length_app. simpl app. simpl length.
  erewrite bind_ret.
  2:{ apply engine_object_lookup.
      eapply frame_lookup_other; [apply FT | exact Hne | exact Heng]. }
  erewrite bind_ret.
  2:{ apply js_set_plain. rewrite LA.
      replace (length h + 2) with (S (S (length h))) by lia.
      eapply frame_assign_prop; [apply FT | exact Hk | exact Hslot]. }
  unfold ret, whenCall_heap. f_equal.
  rewrite store_app_l.
  2:{ rewrite LA. destruct (data_lookup_is_Some _ _ _ _ Hmember) as [? E].
      eapply lookup_lt_Some; eauto. }
  fold hA. rewrite LA. f_equal. f_equal.
  unfold context_object, with_props. simpl.
  replace (length h + 1) with (S (length h)) by lia. reflexivity.
Qed.

End WhenCall.

(** ** From a context to the archived original *)

Lemma resolve_owner h o key l p :
  resolve h o key = Some (Some (l, p)) -> own h l key = Some p.
Proof.
  unfold resolve, own. generalize (length h) as k.
  intros k. revert o. induction k as [|k IH]; intros o E.
  - destruct o; simpl in E; discriminate.
  - destruct o; simpl in E; try discriminate.
    destruct (h !! l0) as [ob|] eqn:El; [|discriminate].
    destruct (o_props ob !! key) eqn:Ep.
    + injection E as <- <-. now rewrite El.
    + eauto.
Qed.

Lemma assign_prop_shape h l key v p :
  assign_prop h l key v = Some p -> exists e c, p = PData v true e c.
Proof.
  unfold assign_prop. destruct (h !! l) as [ob|]; [|discriminate].
  destruct (resolve h (VRef l) key) as [[[l' [? [] ? ?|]]|]|];
    try discriminate.
  - destruct (decide (l' = l)); [|destruct (o_extensible ob)];
      intros [= <-]; unfold field; eauto.
  - destruct (o_extensible ob); intros [= <-]; unfold field; eauto.
Qed.

Lemma assign_prop_fresh h l key v p :
  own h l key = None -> assign_prop h l key v = Some p -> p = field v.
Proof.
  unfold assign_prop. intros Ho. destruct (h !! l) as [ob|]; [|discriminate].
  destruct (resolve h (VRef l) key) as [[[l' [? [] ? ?|]]|]|] eqn:Er;
    try discriminate.
  - destruct (decide (l' = l)) as [->|].
    + apply resolve_owner in Er. congruence.
    + destruct (o_extensible ob); intros [= <-]; reflexivity.
  - destruct (o_extensible ob); intros [= <-]; reflexivity.
Qed.

Section PassChain.

Variable env : nat -> option hostfn.
Variables (hp : heap) (c cb a e l : loc) (nm : string).
Variables (args : list value) (f : value).

Hypothesis Hrealm : realm_ok hp.
Hypothesis Hc_ge : window <= c.
Hypothesis He_ge : window <= e.
Hypothesis Hctx :
  hp !! c = Some (context_object (VRef e) nm (VRef cb) (VRef a)).
Hypothesis Hargs : hp !! a = Some (array args).
Hypothesis Hcb : hp !! cb = Some (closure false (FCallCallback (VRef e) nm)).
Hypothesis Heng : hp !! e = Some (engine_object (VRef l)).
Hypothesis Horig : data_lookup hp (VRef l) ("_CENSOR_" +:+ nm) = Some f.

Lemma context_method key fn_loc fn_kind :
  lookup_chain window (take window realm) (VRef CensorContextPrototype) key
  = Some (Some (CensorContextPrototype, method fn_loc)) ->
  fn_loc < window ->
  fn_of realm (VRef fn_loc) = Some fn_kind ->
  o_props (context_object (VRef e) nm (VRef cb) (VRef a)) !! key = None ->
  data_lookup hp (VRef c) key = Some (VRef fn_loc)
  /\ method_lookup hp (VRef c) key = Some fn_kind.
Proof.
  intros L Hlt F P.
  assert (data_lookup hp (VRef c) key = Some (VRef fn_loc)) as D.
  { unfold data_lookup.
    now rewrite (resolve_via_realm hp c _ key _ Hrealm Hc_ge Hctx P L). }
  split; [exact D|]. unfold method_lookup. rewrite D.
  now apply realm_fn_of.
Qed.

(** [this.callback(...args)] reaches the archived original. *)
Lemma callback_reaches_original n :
  call_fn env (S (S n)) (VRef cb) (VRef c) args hp
  = call_fn env n f (VRef l) args hp.
Proof.
  rewrite (call_fn_dispatch env _ _ _ (FCallCallback (VRef e) nm)).
  2:{ simpl. now rewrite Hcb. }
  cbn [dispatch].
  rewrite (call_method_dispatch env _ _ _ _ FCall).
  2:{ unfold method_lookup, data_lookup.
      rewrite (resolve_via_realm hp e _ "call"
                 (Some (CensorObjectPrototype, method callFn))
                 Hrealm He_ge Heng) by reflexivity.
      apply realm_fn_of; [assumption | unfold callFn, window; lia |].
      reflexivity. }
  cbn [dispatch arg nth tail]. unfold CensorObject_call.
  erewrite bind_ret.
  2:{ apply js_get_data. eapply data_lookup_own; eauto. }
  erewrite bind_ret by reflexivity.
  unfold call_method. 
  erewrite bind_ret by (apply js_get_data; exact Horig).
  reflexivity.
Qed.

(** [ctx.next(...args)] *)
Lemma next_reaches_original n args' :
  call_method (call_fn env (S (S (S n)))) (VRef c) "next" args' hp
  = call_fn env (S (S n)) (VRef cb) (VRef c) args' hp.
Proof.
  destruct (context_method "next" nextFn FContextNext) as [_ Hm];
    [reflexivity | unfold nextFn, window; lia | reflexivity | reflexivity |].
  rewrite (call_method_dispatch env _ _ _ _ _ _ Hm).
  cbn [dispatch]. unfold CensorContext_next, call_method.
  erewrite bind_ret.
  2:{ apply js_get_data. eapply data_lookup_own; eauto. }
  reflexivity.
Qed.

(** [ctx.pass()] *)
Theorem pass_reaches_original n :
  call_method (call_fn env (S (S (S (S n))))) (VRef c) "pass" [] hp
  = call_fn env n f (VRef l) args hp.
Proof.
  destruct (context_method "pass" passFn FContextPass) as [_ Hm];
    [reflexivity | unfold passFn, window; lia | reflexivity | reflexivity |].
  destruct (context_method "next" nextFn FContextNext) as [Hd Hn];
    [reflexivity | unfold nextFn, window; lia | reflexivity | reflexivity |].
  rewrite (call_method_dispatch env _ _ _ _ _ _ Hm).
  cbn [dispatch]. unfold CensorContext_pass.
  erewrite bind_ret by (apply js_get_data; exact Hd).
  erewrite bind_ret.
  2:{ apply js_get_data. eapply data_lookup_own; eauto. }
  erewrite bind_ret.
  2:{ unfold spread, bind, get_obj. rewrite Hargs. reflexivity. }
  pose proof (next_reaches_original n args) as Hnext.
  unfold call_method in Hnext.
  erewrite bind_ret in Hnext by (apply js_get_data; exact Hd).
  rewrite Hnext. apply callback_reaches_original.
Qed.

End PassChain.

(** ** The store that [whenCall] leaves *)

Section WhenCallHeap.

Variables (h : heap) (e l : loc) (nm : string) (handle : value).
Variables (a : bool) (parch : option prop) (pslot : prop) (ob : object).

Hypothesis Hrealm : realm_ok h.
Hypothesis Hl : window <= l.
Hypothesis Hne : e <> l.
Hypothesis Heng : h !! e = Some (engine_object (VRef l)).
Hypothesis Hob : h !! l = Some ob.

Local Abbreviation h1 := (whenCall_heap h e l nm handle a parch pslot).
Local Abbreviation shadow := ("_CENSOR_" +:+ nm).

Lemma whenCall_heap_frame : frame [shadow; nm] l h h1.
Proof.
  unfold whenCall_heap.
  eapply frame_trans; [|apply frame_alloc].
  eapply frame_trans.
  - apply (frame_weaken ["_CENSOR_" +:+ nm]); [|apply archived_frame].
    intros x Hx. apply list_elem_of_singleton in Hx. subst x.
    apply list_elem_of_here.
  - apply frame_store. apply list_elem_of_further, list_elem_of_here.
Qed.

Lemma whenCall_heap_length : length h1 = S (S (S (length h))).
Proof.
  unfold whenCall_heap.
  rewrite length_app, store_length, archived_length. simpl. lia.
Qed.

Lemma whenCall_heap_realm : realm_ok h1.
Proof. eapply frame_realm_ok; eauto using whenCall_heap_frame. Qed.

Lemma whenCall_heap_engine : h1 !! e = Some (engine_object (VRef l)).
Proof. eapply frame_lookup_other; eauto using whenCall_heap_frame. Qed.

Lemma whenCall_heap_new i x :
  [ context_object (VRef e) nm (VRef (S (length h))) VUndefined
  ; closure false (FCallCallback (VRef e) nm)
  ; closure a (FCallWrapper a (VRef (length h)) handle) ] !! i = Some x ->
  h1 !! (length h + i) = Some x.
Proof.
  intros E. unfold whenCall_heap.
  rewrite lookup_app_r; rewrite store_length, archived_length; [|lia].
  now replace (length h + i - length h) with i by lia.
Qed.

Lemma whenCall_heap_context :
  h1 !! length h
  = Some (context_object (VRef e) nm (VRef (S (length h))) VUndefined).
Proof.
  replace (length h) with (length h + 0) at 1 by lia.
  now apply whenCall_heap_new.
Qed.

Lemma whenCall_heap_callback :
  h1 !! S (length h) = Some (closure false (FCallCallback (VRef e) nm)).
Proof.
  replace (S (length h)) with (length h + 1) by lia.
  now apply whenCall_heap_new.
Qed.

Lemma whenCall_heap_wrapper :
  h1 !! S (S (length h))
  = Some (closure a (FCallWrapper a (VRef (length h)) handle)).
Proof.
  replace (S (S (length h))) with (length h + 2) by lia.
  now apply whenCall_heap_new.
Qed.

Lemma archived_lookup :
  exists ob', archived h l nm parch !! l = Some ob'.
Proof.
  destruct (frame_lookup_target _ _ _ _ _ (archived_frame h l nm parch) Hob)
    as (ps & E & _). eauto.
Qed.

Lemma whenCall_heap_slot : own h1 l nm = Some pslot.
Proof.
  destruct archived_lookup as [ob' E].
  assert (l < length h) as Hlt by (eapply lookup_lt_Some; eauto).
  unfold whenCall_heap.
  rewrite own_app_l by (now rewrite store_length, archived_length).
  eapply own_store_eq; eauto.
Qed.

Lemma whenCall_heap_shadow :
  own h1 l shadow = match parch with
                    | Some p => Some p
                    | None => own h l shadow
                    end.
Proof.
  assert (l < length h) as Hlt by (eapply lookup_lt_Some; eauto).
  unfold whenCall_heap.
  rewrite own_app_l by (now rewrite store_length, archived_length).
  rewrite own_store_ne by apply shadow_ne.
  destruct parch; simpl; [|reflexivity].
  eapply own_store_eq; eauto.
Qed.

End WhenCallHeap.

(** ** Entering a call wrapper *)

Lemma wrapper_entry_frame h c args :
  frame ["args"] c h (wrapper_entry h c args).
Proof.
  unfold wrapper_entry. eapply frame_trans; [apply frame_alloc|].
  apply frame_store. apply list_elem_of_here.
Qed.

Lemma wrapper_entry_context h c args parent nm cb a0 :
  h !! c = Some (context_object parent nm cb a0) ->
  wrapper_entry h c args !! c
  = Some (context_object parent nm cb (VRef (length h))).
Proof.
  intros E. unfold wrapper_entry.
  erewrite store_lookup_eq.
  2:{ rewrite lookup_app_l by (eapply lookup_lt_Some; eauto). exact E. }
  reflexivity.
Qed.

Lemma wrapper_entry_args h c args :
  c < length h -> wrapper_entry h c args !! length h = Some (array args).
Proof.
  intros Hc. unfold wrapper_entry. rewrite store_lookup_ne by lia.
  apply list_lookup_middle. reflexivity.
Qed.

Section WrapperCall.

Variable env : nat -> option hostfn.

Lemma wrapper_prologue (call : caller) h c args parent nm cb a0
    (rest : M value) :
  h !! c = Some (context_object parent nm cb a0) ->
  (let! arr := alloc (array args) in
   js_set call true (VRef c) "args" arr;;; rest) h
  = rest (wrapper_entry h c args).
Proof.
  intros E.
  erewrite bind_ret by reflexivity.
  erewrite bind_ret.
  2:{ apply js_set_plain. eapply assign_prop_own.
      - rewrite lookup_app_l by (eapply lookup_lt_Some; eauto). exact E.
      - reflexivity. }
  reflexivity.
Qed.



End WrapperCall.

(** ** Registration of a call handle, and what the target holds after *)

Lemma data_lookup_of_own h l key v w e c :
  own h l key = Some (PData v w e c) -> data_lookup h (VRef l) key = Some v.
Proof.
  unfold own. destruct (h !! l) as [ob|] eqn:E; [|discriminate].
  intros P. eapply data_lookup_own; eauto.
Qed.

Lemma assign_prop_any h l key v v' :
  is_Some (assign_prop h l key v) -> is_Some (assign_prop h l key v').
Proof.
  unfold assign_prop. destruct (h !! l) as [ob|]; [|intros [? ?]; discriminate].
  destruct (resolve h (VRef l) key) as [[[l' [? [] ? ?|]]|]|];
    try (intros [? ?]; discriminate).
  - destruct (decide (l' = l)); [eauto|destruct (o_extensible ob); eauto].
  - destruct (o_extensible ob); eauto.
Qed.

Section Registered.

Variable env : nat -> option hostfn.
Variables (h : heap) (e l : loc) (nm : string) (m handle : value).
Variables (tag : option value).

Hypothesis Htarget : call_target h e l nm m.
Hypothesis Hhandle : handle_tagged h handle tag.
Hypothesis Hslot : is_Some (assign_prop h l nm m).

(** The store after the registration, for a target that may or may not
    have been intercepted before. *)
Lemma whenCall_registered parch :
  archive_prop h l nm m = Some parch ->
  exists en cf h1,
    h1 = whenCall_heap h e l nm handle (async_tag tag) parch
           (PData (VRef (S (S (length h)))) true en cf) /\
    (forall k, whenCall (call_fn env (S k)) (VRef e) (VStr nm) handle h
               = (Ret (VRef e), h1)) /\
    frame ["_CENSOR_" +:+ nm; nm] l h h1 /\
    realm_ok h1 /\
    length h1 = S (S (S (length h))) /\
    h1 !! e = Some (engine_object (VRef l)) /\
    h1 !! length h
    = Some (context_object (VRef e) nm (VRef (S (length h))) VUndefined) /\
    h1 !! S (length h) = Some (closure false (FCallCallback (VRef e) nm)) /\
    fn_of h1 (VRef (S (S (length h))))
    = Some (FCallWrapper (async_tag tag) (VRef (length h)) handle) /\
    h1 !! S (S (length h))
    = Some (closure (async_tag tag)
              (FCallWrapper (async_tag tag) (VRef (length h)) handle)) /\
    own h1 l nm = Some (PData (VRef (S (S (length h)))) true en cf) /\
    data_lookup h1 (VRef l) nm = Some (VRef (S (S (length h)))) /\
    own h1 l ("_CENSOR_" +:+ nm)
    = match parch with
      | Some p => Some p
      | None => own h l ("_CENSOR_" +:+ nm)
      end.
Proof.
  intros Harch.
  destruct Htarget as (R & Hl & He & Hne & Heng & Hhas & Hm & Hty).
  destruct Hhandle as (Hh & Htag).
  destruct (assign_prop_any _ _ _ _ (VRef (S (S (length h)))) Hslot)
    as [pslot Hp].
  destruct (assign_prop_shape _ _ _ _ _ Hp) as (en & cf & ->).
  destruct (data_lookup_is_Some _ _ _ _ Hm) as [ob Hob].
  exists en, cf. eexists. split; [reflexivity|].
  split; [solve [intros k; eapply whenCall_ok; eauto]|].
  split; [solve [eapply whenCall_heap_frame; eauto]|].
  split; [solve [eapply whenCall_heap_realm; eauto]|].
  split; [solve [eapply whenCall_heap_length; eauto]|].
  split; [solve [eapply whenCall_heap_engine; eauto]|].
  split; [solve [eapply whenCall_heap_context; eauto]|].
  split; [solve [eapply whenCall_heap_callback; eauto]|].
  split; [solve [simpl; erewrite whenCall_heap_wrapper; eauto]|].
  split; [solve [eapply whenCall_heap_wrapper; eauto]|].
  assert (own (whenCall_heap h e l nm handle (async_tag tag) parch
                 (PData (VRef (S (S (length h)))) true en cf)) l nm
          = Some (PData (VRef (S (S (length h)))) true en cf)) as Hown
    by (eapply whenCall_heap_slot; eauto).
  split; [exact Hown|].
  split; [eapply data_lookup_of_own; eauto|].
  eapply whenCall_heap_shadow; eauto.
Qed.

End Registered.

(** * The accessor-descriptor lookup *)

Lemma regular_level_spec h l :
  regular_level h l = true ->
  is_Some (data_lookup h (VRef l) "constructor") /\
  method_lookup h (VRef l) "hasOwnProperty" = Some FHasOwnProperty.
Proof.
  unfold regular_level. rewrite andb_true_iff, !bool_decide_eq_true. tauto.
Qed.

Section Walk.

Variable env : nat -> option hostfn.
Variables (k : nat) (h : heap) (name : string).

Lemma getPropertyDescriptor_loop_walk fuel :
  forall depth o,
    depth + fuel = 11 ->
    forallb (regular_level h) (levels fuel h o) = true ->
    walk_outcome h name (levels fuel h o)
      (ancestor (length (levels fuel h o)) h o)
      (getPropertyDescriptor_loop (call_fn env (S k)) fuel o (VStr name)
         depth 10 h).
Proof.
  induction fuel as [|fuel IH]; intros depth o Hd Hreg.
  - (* the depth bound is passed *)
    unfold walk_outcome. simpl.
    destruct o; try exact I.
    + reflexivity.
    + intros [c Hc].
      erewrite bind_ret by (apply js_get_data; exact Hc).
      replace (depth <=? 10)%nat with false
        by (symmetry; apply Nat.leb_gt; lia).
      now rewrite andb_false_r.
  - destruct o; try exact I.
    + reflexivity.
    + simpl levels in *. destruct (h !! l) as [ob|] eqn:El.
      * simpl in Hreg. apply andb_true_iff in Hreg as [Hl Hreg].
        apply regular_level_spec in Hl as [[c Hc] Hhas].
        unfold walk_outcome. cbn [walk length ancestor]. rewrite El.
        cbn [getPropertyDescriptor_loop].
        erewrite bind_ret by (apply js_get_data; exact Hc).
        unfold constructor_is_Object. rewrite Hc. unfold strict_eq.
        destruct (decide (c = VRef ObjectCtor)) as [->|Hne].
        { rewrite !bool_decide_eq_true_2 by reflexivity. reflexivity. }
        rewrite (bool_decide_eq_false_2 (c = VRef ObjectCtor)) by exact Hne.
        rewrite (bool_decide_eq_false_2 (Some c = Some (VRef ObjectCtor)))
          by congruence.
        replace (depth <=? 10)%nat with true
          by (symmetry; apply Nat.leb_le; lia).
        cbn [negb andb].
        erewrite bind_ret
          by (eapply call_method_hasOwnProperty; eauto).
        unfold own. rewrite El.
        destruct (o_props ob !! name) as [p|] eqn:Ep.
        -- rewrite bool_decide_eq_true_2 by eauto. cbn [to_boolean].
           unfold getOwnPropertyDescriptor, bind, get_obj.
           rewrite El, Ep. reflexivity.
        -- rewrite bool_decide_eq_false_2 by (intros [? ?]; discriminate).
           cbn [to_boolean].
           erewrite bind_ret
             by (unfold getPrototypeOf, bind, get_obj; rewrite El;
                 reflexivity).
           specialize (IH (S depth) (o_proto ob) ltac:(lia) Hreg).
           exact IH.
      * unfold walk_outcome. cbn [walk length ancestor].
        intros [c Hc]. unfold data_lookup, resolve in Hc.
        destruct (length h); simpl in Hc; [discriminate|].
        rewrite El in Hc. discriminate.
Qed.

End Walk.

(** The lookup as the code runs it, with the default bound: it walks
    the prototype chain upward from the target itself over at most 11
    levels (depths 0 to 10).  At each level it stops with none when the
    level's [constructor] is [Object], and otherwise returns a
    descriptor of the level's own property [name] if it has one.  When
    the levels are used up, it reads [constructor] once more on what
    follows: that gives none on an object and a TypeError on [null]. *)
Theorem getPropertyDescriptor_walk (env : nat -> option hostfn) k h o name :
  forallb (regular_level h) (levels 11 h o) = true ->
  walk_outcome h name (levels 11 h o)
    (ancestor (length (levels 11 h o)) h o)
    (getPropertyDescriptor (call_fn env (S k)) o (VStr name) 10 h).
Proof.
  intros Hreg. unfold getPropertyDescriptor.
  now apply getPropertyDescriptor_loop_walk.
Qed.

Lemma getPropertyDescriptor_walk_witness :
  getPropertyDescriptor (call_fn ex_env 9) (VRef ex_deep_target) (VStr "x") 10
    ex_deep_heap
  = (Ret (VRef (length ex_deep_heap)),
     ex_deep_heap
     ++ [descriptor_of (PAccessor (VRef 16) VUndefined false true)]).
Proof.
  exact (getPropertyDescriptor_walk ex_env 8 ex_deep_heap
           (VRef ex_deep_target) "x" eq_refl).
Defined.

(** The code finds a descriptor on the eleventh level, beyond the ten
    levels of the specification, and finds none on an object literal
    that owns the property. *)
Lemma getPropertyDescriptor_not_as_specified :
  fst (getPropertyDescriptor (call_fn ex_env 9) (VRef ex_deep_target)
         (VStr "x") 10 ex_deep_heap)
  <> fst (descriptor_result
            (spec_getPropertyDescriptor ex_deep_heap (VRef ex_deep_target) "x")
            ex_deep_heap)
  /\
  fst (getPropertyDescriptor (call_fn ex_env 9) (VRef ex_literal)
         (VStr "x") 10 ex_literal_heap)
  <> fst (descriptor_result
            (spec_getPropertyDescriptor ex_literal_heap (VRef ex_literal) "x")
            ex_literal_heap).
Proof. split; vm_compute; discriminate. Qed.

(** C8 (the code at the failing input). The loop tests
    [obj.constructor !== Object] before it looks at the object: a target
    whose [constructor] is [Object], an object literal for one, is never
    examined, and the lookup yields none although the target itself owns
    the property. *)
Theorem getPropertyDescriptor_skips_object_literal (call : caller)
    h l name maxdepth p :
  data_lookup h (VRef l) "constructor" = Some (VRef ObjectCtor) ->
  own h l name = Some p ->
  getPropertyDescriptor call (VRef l) (VStr name) maxdepth h = (Ret VNull, h).
Proof.
  intros Hc _. unfold getPropertyDescriptor.
  cbn [getPropertyDescriptor_loop].
  erewrite bind_ret by (apply js_get_data; exact Hc).
  unfold strict_eq. rewrite bool_decide_eq_true_2 by reflexivity.
  reflexivity.
Qed.

Lemma getPropertyDescriptor_skips_object_literal_witness :
  own ex_literal_heap ex_literal "x"
  = Some (PAccessor (VRef 16) VUndefined true true)
  /\ getPropertyDescriptor (call_fn ex_env 9) (VRef ex_literal) (VStr "x") 10
       ex_literal_heap
     = (Ret VNull, ex_literal_heap).
Proof.
  split; [reflexivity|].
  apply (getPropertyDescriptor_skips_object_literal (call_fn ex_env 9)
           ex_literal_heap ex_literal "x" 10
           (PAccessor (VRef 16) VUndefined true true));
    reflexivity.
Defined.

(** * Attribute interception: the steps of [whenAttr] *)

Lemma descriptor_fields h d p :
  realm_ok h -> window <= d -> h !! d = Some (descriptor_of p) ->
  data_lookup h (VRef d) "set" = Some (setter_of p) /\
  data_lookup h (VRef d) "get" = Some (getter_of p).
Proof.
  intros R Hd E. destruct p as [v w en c|g s en c].
  - split; unfold data_lookup;
      erewrite resolve_via_realm by (eauto; reflexivity); reflexivity.
  - split; eapply data_lookup_own; eauto; reflexivity.
Qed.

Lemma plain_set (call : caller) h i ob key v :
  realm_ok h -> window <= i -> h !! i = Some ob ->
  o_extensible ob = true -> o_props ob !! key = None ->
  lookup_chain window (take window realm) (o_proto ob) key = Some None ->
  js_set call true (VRef i) key v h = (Ret tt, store h i key (field v)).
Proof.
  intros R Hi E X P L. apply js_set_plain.
  eapply assign_prop_new; eauto. eapply resolve_via_realm; eauto.
Qed.

Lemma absent_field_ok h i ob key :
  realm_ok h -> window <= i -> h !! i = Some ob ->
  o_props ob !! key = None ->
  lookup_chain window (take window realm) (o_proto ob) key = Some None ->
  absent_field (VRef i) key h = (Ret tt, h).
Proof.
  intros R Hi E P L. unfold absent_field, bind, find_prop.
  fold (resolve h (VRef i) key).
  now erewrite resolve_via_realm by eauto.
Qed.

Lemma accessor_field_missing (call : caller) h i ob key msg :
  realm_ok h -> window <= i -> h !! i = Some ob ->
  o_props ob !! key = None ->
  lookup_chain window (take window realm) (o_proto ob) key = Some None ->
  accessor_field call (VRef i) key msg h = (Ret None, h).
Proof.
  intros R Hi E P L. unfold accessor_field, bind, find_prop.
  fold (resolve h (VRef i) key).
  now erewrite resolve_via_realm by eauto.
Qed.

Lemma accessor_field_present (call : caller) h i ob key msg f :
  h !! i = Some ob -> o_props ob !! key = Some (field f) ->
  typeof h f = "function" ->
  accessor_field call (VRef i) key msg h = (Ret (Some f), h).
Proof.
  intros E P T. unfold accessor_field, bind at 1, find_prop.
  fold (resolve h (VRef i) key).
  rewrite (resolve_own _ _ _ _ _ E P).
  erewrite bind_ret by (apply js_get_data; eapply data_lookup_own; eauto).
  unfold bind, typeof_m. rewrite T. reflexivity.
Qed.

Lemma define_own_new h l ob key dget dset :
  h !! l = Some ob -> o_props ob !! key = None -> o_extensible ob = true ->
  define_own l key (dget, dset) h
  = (Ret tt, store h l key (new_own_property dget dset)).
Proof.
  intros E P X. unfold define_own, bind, get_obj, store, set_own.
  rewrite E, P, X. destruct dget, dset; simpl; rewrite E; reflexivity.
Qed.

Lemma entry_step (call : caller) h i ob key x :
  realm_ok h -> window <= i -> h !! i = Some ob ->
  o_extensible ob = true -> o_props ob !! key = None ->
  lookup_chain window (take window realm) (o_proto ob) key = Some None ->
  (let! f := alloc x in js_set call true (VRef i) key f) h
  = (Ret tt, store (h ++ [x]) i key (field (VRef (length h)))).
Proof.
  intros R Hi E X P L. erewrite bind_ret by reflexivity.
  eapply plain_set; eauto.
  - eapply frame_realm_ok; [apply (frame_alloc [] i) | exact Hi | exact R].
  - rewrite lookup_app_l by (eapply lookup_lt_Some; eauto). exact E.
Qed.

Lemma accessor_field_entry (call : caller) h i ob key msg d :
  realm_ok h -> window <= i -> h !! i = Some ob ->
  o_proto ob = VRef ObjectPrototype ->
  lookup_chain window (take window realm) (VRef ObjectPrototype) key
  = Some None ->
  descriptor_entry h ob key d ->
  accessor_field call (VRef i) key msg h = (Ret d, h).
Proof.
  intros R Hi E Hp L Hd. destruct d as [f|].
  - destruct Hd as [P T]. eapply accessor_field_present; eauto.
  - eapply accessor_field_missing; eauto. now rewrite Hp.
Qed.

Lemma to_property_descriptor_ok (call : caller) h i ob dget dset :
  realm_ok h -> window <= i -> h !! i = Some ob ->
  o_proto ob = VRef ObjectPrototype ->
  o_props ob !! "enumerable" = None ->
  o_props ob !! "configurable" = None ->
  o_props ob !! "value" = None ->
  o_props ob !! "writable" = None ->
  descriptor_entry h ob "get" dget ->
  descriptor_entry h ob "set" dset ->
  to_property_descriptor call (VRef i) h = (Ret (dget, dset), h).
Proof.
  intros R Hi E Hp P1 P2 P3 P4 Hg Hs. unfold to_property_descriptor.
  erewrite bind_ret
    by (eapply absent_field_ok; eauto; rewrite Hp; reflexivity).
  erewrite bind_ret
    by (eapply absent_field_ok; eauto; rewrite Hp; reflexivity).
  erewrite bind_ret
    by (eapply absent_field_ok; eauto; rewrite Hp; reflexivity).
  erewrite bind_ret
    by (eapply absent_field_ok; eauto; rewrite Hp; reflexivity).
  erewrite bind_ret by (eapply accessor_field_entry; eauto; reflexivity).
  erewrite bind_ret by (eapply accessor_field_entry; eauto; reflexivity).
  reflexivity.
Qed.

Lemma defineProperty_new (call : caller) h l lob nm i ob dget dset :
  realm_ok h -> window <= i -> h !! i = Some ob ->
  o_proto ob = VRef ObjectPrototype ->
  o_props ob !! "enumerable" = None ->
  o_props ob !! "configurable" = None ->
  o_props ob !! "value" = None ->
  o_props ob !! "writable" = None ->
  descriptor_entry h ob "get" dget ->
  descriptor_entry h ob "set" dset ->
  h !! l = Some lob -> o_props lob !! nm = None -> o_extensible lob = true ->
  defineProperty call (VRef l) (VStr nm) (VRef i) h
  = (Ret (VRef l), store h l nm (new_own_property dget dset)).
Proof.
  intros R Hi E Hp P1 P2 P3 P4 Hg Hs El Pl Xl. unfold defineProperty.
  erewrite bind_ret by (eapply to_property_descriptor_ok; eauto).
  erewrite bind_ret by (eapply define_own_new; eauto).
  reflexivity.
Qed.

Lemma censor_key_ne_set_get nm : "_CENSOR_get_" +:+ nm <> "_CENSOR_set_" +:+ nm.
Proof. discriminate. Qed.

Lemma name_ne_censor_set nm : nm <> "_CENSOR_set_" +:+ nm.
Proof.
  intros E. apply (f_equal String.length) in E.
  rewrite string_length_append in E. simpl in E. lia.
Qed.

Lemma name_ne_censor_get nm : nm <> "_CENSOR_get_" +:+ nm.
Proof.
  intros E. apply (f_equal String.length) in E.
  rewrite string_length_append in E. simpl in E. lia.
Qed.

Lemma assign_prop_fresh_any h l key v v' :
  own h l key = None -> is_Some (assign_prop h l key v) ->
  assign_prop h l key v' = Some (field v').
Proof.
  intros Ho Hs. destruct (assign_prop_any _ _ _ _ v' Hs) as [p Hp].
  now rewrite Hp, (assign_prop_fresh _ _ _ _ _ Ho Hp).
Qed.

Lemma store_cons_0 x t key p :
  store (x :: t) 0 key p = with_props x (<[key := p]> (o_props x)) :: t.
Proof. reflexivity. Qed.

Lemma store_cons_S x t i key p :
  store (x :: t) (S i) key p = x :: store t i key p.
Proof.
  unfold store. simpl. destruct (t !! i); reflexivity.
Qed.

Lemma store_app_r h t i key p :
  store (h ++ t) (length h + i) key p = h ++ store t i key p.
Proof.
  unfold store. rewrite lookup_app_r by lia.
  replace (length h + i - length h) with i by lia.
  destruct (t !! i); [|reflexivity].
  rewrite insert_app_r_alt by lia.
  now replace (length h + i - length h) with i by lia.
Qed.

Lemma lookup_app_plus {A} (h t : list A) i :
  (h ++ t) !! (length h + i) = t !! i.
Proof.
  rewrite lookup_app_r by lia.
  now replace (length h + i - length h) with i by lia.
Qed.

Section WhenAttr.

Variable env : nat -> option hostfn.
Variables (h : heap) (e l hl : loc) (nm : string) (p : prop).
Variables (has_get has_set : bool).

Hypothesis Ht : attr_target h e l nm p.
Hypothesis Hh : handles_record h hl l has_get has_set.

Local Abbreviation setkey := ("_CENSOR_set_" +:+ nm).
Local Abbreviation getkey := ("_CENSOR_get_" +:+ nm).
Local Abbreviation hb :=
  (store (store h l setkey (field (setter_of p))) l getkey
     (field (getter_of p))).

Lemma whenAttr_base_frame t : frame [setkey; getkey] l h (hb ++ t).
Proof.
  eapply frame_trans; [|apply frame_alloc].
  eapply frame_trans; apply frame_store.
  - apply list_elem_of_here.
  - apply list_elem_of_further, list_elem_of_here.
Qed.

Lemma whenAttr_base_length : length hb = length h.
Proof. now rewrite !store_length. Qed.

Theorem whenAttr_ok k :
  whenAttr (call_fn env (S k)) (VRef e) (VStr nm) (VRef hl) h
  = (Ret (VRef e), whenAttr_heap h e l nm (VRef hl) p has_get has_set).
Proof.
  destruct Ht as (R & Hl & Hne & Heng & (ob & Hob & Hext) & Hown & Hreg
                  & Hwalk & Hs0 & Hs & Hg0 & Hg).
  destruct Hh as (Hhne & Hhty & Hhhas & Hhg & Hhs).
  pose proof (realm_ok_length _ R) as Hwin.
  assert (l < length h) as Hlt by (eapply lookup_lt_Some; eauto).
  assert (e < length h) as Helt by (eapply lookup_lt_Some; eauto).
  pose proof (getPropertyDescriptor_loop_walk env k h nm 11 0 (VRef l)
                eq_refl Hreg) as Hgpd.
  unfold walk_outcome in Hgpd. rewrite Hwalk in Hgpd.
  change (getPropertyDescriptor_loop (call_fn env (S k)) 11 (VRef l)
            (VStr nm) 0 10)
    with (getPropertyDescriptor (call_fn env (S k)) (VRef l) (VStr nm) 10)
    in Hgpd.
  unfold whenAttr.
  erewrite bind_ret by (apply typeCheck_ok; reflexivity).
  erewrite bind_ret by (apply typeCheck_ok; exact Hhty).
  erewrite bind_ret by reflexivity.
  erewrite bind_ret by (apply engine_object_lookup; exact Heng).
  erewrite bind_ret by exact Hgpd.
  (* this.object["_CENSOR_set_" + name] = description["set"] *)
  assert (realm_ok (h ++ [descriptor_of p])) as R1.
  { eapply frame_realm_ok; [apply (frame_alloc [] l) | exact Hl | exact R]. }
  erewrite bind_ret.
  2:{ apply engine_object_lookup. rewrite lookup_app_l by exact Helt.
      exact Heng. }
  erewrite bind_ret.
  2:{ apply js_get_data.
      apply (descriptor_fields _ _ p R1 Hwin).
      apply list_lookup_middle. reflexivity. }
  erewrite bind_ret.
  2:{ apply js_set_plain.
      eapply frame_assign_prop;
        [apply (frame_alloc [] l) | apply not_elem_of_nil |].
      eapply assign_prop_fresh_any; eauto. }
  rewrite store_app_l by exact Hlt.
  (* this.object["_CENSOR_get_" + name] = description["get"] *)
  assert (frame [setkey] l h
            (store h l setkey (field (setter_of p)) ++ [descriptor_of p]))
    as F2.
  { eapply frame_trans; [|apply frame_alloc].
    apply frame_store, list_elem_of_here. }
  assert (realm_ok (store h l setkey (field (setter_of p))
                    ++ [descriptor_of p])) as R2
    by (eapply frame_realm_ok; eauto).
  erewrite bind_ret.
  2:{ apply engine_object_lookup. eapply frame_lookup_other; eauto. }
  erewrite bind_ret.
  2:{ apply js_get_data.
      apply (descriptor_fields _ (length h) p R2 Hwin).
      rewrite <- (store_length h l setkey (field (setter_of p))).
      apply list_lookup_middle. reflexivity. }
  erewrite bind_ret.
  2:{ apply js_set_plain.
      eapply frame_assign_prop; [exact F2 | |].
      - rewrite list_elem_of_singleton. apply censor_key_ne_set_get.
      - eapply assign_prop_fresh_any; eauto. }
  rewrite store_app_l by (now rewrite store_length).
  (* var desc = {}; var context = new CensorContext(this, name) *)
  pose proof whenAttr_base_frame as FT.
  pose proof whenAttr_base_length as LB.
  assert (forall t, realm_ok (hb ++ t)) as RT
    by (intros t; eapply frame_realm_ok; eauto).
  erewrite bind_ret by reflexivity.
  rewrite <- app_assoc, length_app, LB. simpl app. simpl length.
  erewrite bind_ret by (apply new_CensorContext_ok; apply RT).
  rewrite <- app_assoc, length_app, LB. simpl app. simpl length.
  (* handles.hasOwnProperty("get") *)
  assert (exists hob, h !! hl = Some hob) as [hob Hhob].
  { unfold method_lookup in Hhhas.
    destruct (data_lookup h (VRef hl) "hasOwnProperty") eqn:E;
      [|discriminate].
    apply data_lookup_is_Some in E as [hob E]. eauto. }
  assert ("hasOwnProperty" ∉ [setkey; getkey]) as Hk.
  { rewrite !elem_of_cons, elem_of_nil. intros [E|[E|[]]]; discriminate E. }
  unfold own in Hhg, Hhs. rewrite Hhob in Hhg, Hhs.
  erewrite bind_ret.
  2:{ eapply call_method_hasOwnProperty.
      - eapply frame_method_lookup; [apply FT | exact Hk | exact Hhhas].
      - eapply frame_lookup_other; [apply FT | exact Hhne | exact Hhob]. }
  rewrite <- Hhg. cbn [to_boolean].
  assert (forall t i, (hb ++ t) !! (length h + i) = t !! i) as Hnew.
  { intros t i. rewrite <- LB. apply lookup_app_plus. }
  assert (forall t i key v,
            store (hb ++ t) (length h + i) key v = hb ++ store t i key v)
    as Hst.
  { intros t i key v. rewrite <- LB. apply store_app_r. }
  assert (nm ∉ [setkey; getkey]) as Hnk.
  { rewrite !elem_of_cons, elem_of_nil.
    intros [E|[E|[]]];
      [apply name_ne_censor_set in E | apply name_ne_censor_get in E];
      exact E. }
  assert (o_props ob !! nm = None) as Hown'.
  { unfold own in Hown. now rewrite Hob in Hown. }
  pose (dget := if has_get then Some (VRef (length h + 3)) else None).
  pose (dset := if has_set
                then Some (VRef (if has_get then length h + 4
                                 else length h + 3))
                else None).
  assert (forall t, exists ps,
            (hb ++ t) !! l = Some (with_props ob ps) /\ ps !! nm = None)
    as Htarget.
  { intros t. destruct (frame_lookup_target _ _ _ _ _ (FT t) Hob)
      as (ps & Elt & Hps).
    exists ps. split; [exact Elt|]. rewrite Hps; [exact Hown' | exact Hnk]. }
  (* if (handles.hasOwnProperty("get")) desc["get"] = ... *)
  destruct has_get; cbv iota;
    [ erewrite bind_ret
        by (eapply entry_step;
            [apply RT | lia | rewrite Hnew; reflexivity | reflexivity ..]);
      rewrite <- app_assoc, length_app, LB; simpl app; simpl length;
      rewrite Hst, store_cons_S, store_cons_0
    | erewrite bind_ret by reflexivity ].
  (* if (handles.hasOwnProperty("set")) desc["set"] = ... *)
  all: erewrite bind_ret
         by (eapply call_method_hasOwnProperty;
             [ eapply frame_method_lookup; [apply FT | exact Hk | exact Hhhas]
             | eapply frame_lookup_other;
               [apply FT | exact Hhne | exact Hhob] ]).
  all: rewrite <- Hhs; cbn [to_boolean].
  all: destruct has_set; cbv iota;
    [ erewrite bind_ret
        by (eapply entry_step;
            [apply RT | lia | rewrite Hnew; reflexivity | reflexivity ..]);
      rewrite <- app_assoc, length_app, LB; simpl app; simpl length;
      rewrite Hst, store_cons_S, store_cons_0
    | erewrite bind_ret by reflexivity ].
  (* Object.defineProperty(this.object, name, desc) *)
  all: erewrite bind_ret
         by (apply engine_object_lookup;
             eapply frame_lookup_other; [apply FT | exact Hne | exact Heng]).
  all: match goal with
       | |- context [ hb ++ ?t ] =>
           destruct (Htarget t) as (ps & Elt & Hps)
       end.
  all: erewrite bind_ret
         by (eapply (defineProperty_new _ _ _ _ _ _ _ dget dset);
             [ apply RT | | rewrite Hnew; reflexivity | reflexivity ..
             | | | exact Elt | exact Hps | exact Hext ];
             [ lia
             | first [ split; [reflexivity | simpl; rewrite Hnew; reflexivity]
                     | reflexivity ]
             | first [ split; [reflexivity | simpl; rewrite Hnew; reflexivity]
                     | reflexivity ] ]).
  all: rewrite store_app_l by (rewrite LB; exact Hlt).
  all: unfold whenAttr_heap, new_own_property, dget, dset; simpl.
  all: replace (length h + 4) with (S (S (S (S (length h))))) by lia.
  all: replace (length h + 3) with (S (S (S (length h)))) by lia.
  all: replace (length h + 2) with (S (S (length h))) by lia.
  all: reflexivity.
Qed.

End WhenAttr.

(** * Call interception *)

Section CallInterception.

Variable env : nat -> option hostfn.

(** The store in which a handle runs lets [ctx.pass()] reach whatever
    the shadow key of the target holds. *)
Lemma pass_after_registration h1 e l nm c cb f args n :
  realm_ok h1 -> window <= c -> window <= e ->
  h1 !! c = Some (context_object (VRef e) nm (VRef cb) VUndefined) ->
  h1 !! cb = Some (closure false (FCallCallback (VRef e) nm)) ->
  h1 !! e = Some (engine_object (VRef l)) ->
  c <> cb -> c <> e ->
  data_lookup h1 (VRef l) ("_CENSOR_" +:+ nm) = Some f ->
  call_method (call_fn env (S (S (S (S n))))) (VRef c) "pass" []
    (wrapper_entry h1 c args)
  = call_fn env n f (VRef l) args (wrapper_entry h1 c args).
Proof.
  intros R Hc He Ectx Ecb Eeng Hcb Hce Hf.
  pose proof (wrapper_entry_frame h1 c args) as F.
  assert (c < length h1) as Hlt by (eapply lookup_lt_Some; eauto).
  eapply pass_reaches_original with (cb := cb) (a := length h1) (e := e).
  - eapply frame_realm_ok; eauto.
  - exact Hc.
  - exact He.
  - eapply wrapper_entry_context; eauto.
  - now apply wrapper_entry_args.
  - eapply frame_lookup_other; eauto.
  - eapply frame_lookup_other; eauto.
  - eapply frame_data_lookup; eauto.
    rewrite list_elem_of_singleton. discriminate.
Qed.


(** Two call handles registered on the same member, for a member other
    than [hasOwnProperty] on a target whose [hasOwnProperty] is the
    built-in one: the shadow key still holds the member as it was before
    any interception, the visible slot holds the wrapper of the second
    handle, and the pass-through of that wrapper's context calls the
    absolute original on the target, not the wrapper of the first
    handle. *)
Theorem whenCall_idempotent_capture h e l nm m handle1 handle2 tag1 tag2 :
  call_target h e l nm m ->
  unintercepted h l nm m ->
  is_Some (assign_prop h l nm m) ->
  nm <> "hasOwnProperty" ->
  handle_tagged h handle1 tag1 ->
  handle_tagged h handle2 tag2 ->
  exists h1 h2 w1 w2 c2,
    (forall k, whenCall (call_fn env (S k)) (VRef e) (VStr nm) handle1 h
               = (Ret (VRef e), h1)) /\
    (forall k, whenCall (call_fn env (S k)) (VRef e) (VStr nm) handle2 h1
               = (Ret (VRef e), h2)) /\
    data_lookup h1 (VRef l) nm = Some (VRef w1) /\
    own h2 l ("_CENSOR_" +:+ nm) = Some (field m) /\
    data_lookup h2 (VRef l) nm = Some (VRef w2) /\ w2 <> w1 /\
    fn_of h2 (VRef w2) = Some (FCallWrapper (async_tag tag2) (VRef c2) handle2) /\
    forall args n,
      call_method (call_fn env (4 + n)) (VRef c2) "pass" []
        (wrapper_entry h2 c2 args)
      = call_fn env n m (VRef l) args (wrapper_entry h2 c2 args).
Proof.
  intros Ht [Hfresh [p Hp]] Hslot Hnm Hh1 Hh2.
  pose proof (assign_prop_fresh _ _ _ _ _ Hfresh Hp) as ->.
  destruct (whenCall_registered env h e l nm m handle1 tag1 Ht Hh1 Hslot
              (Some (field m)))
    as (en & cf & h1 & _ & Hrun1 & F1 & R1 & Hlen1 & Eeng1 & _ & _ & Ew1
        & Ew1' & Hown1 & Hd1 & Hsh1).
  { unfold archive_prop. now rewrite Hfresh, Hp. }
  destruct Ht as (R & Hl & He & Hne & Heng & Hhas & Hm & Hty).
  destruct Hh2 as (Hty2 & Htag2).
  assert (call_target h1 e l nm (VRef (S (S (length h))))) as Ht1.
  { repeat split; auto.
    - eapply frame_method_lookup; eauto.
      rewrite !elem_of_cons, elem_of_nil.
      intros [E|[E|[]]]; [discriminate E | congruence].
    - apply typeof_function. eauto. }
  assert (handle_tagged h1 handle2 tag2) as Hh2'.
  { split; [eapply frame_typeof_function | eapply frame_lookup_tag]; eauto. }
  assert (is_Some (assign_prop h1 l nm (VRef (S (S (length h)))))) as Hslot1.
  { unfold own in Hown1. destruct (h1 !! l) as [ob1|] eqn:E1; [|discriminate].
    erewrite assign_prop_own; eauto. }
  destruct (whenCall_registered env h1 e l nm _ handle2 tag2 Ht1 Hh2' Hslot1
              None)
    as (en2 & cf2 & h2 & _ & Hrun2 & F2 & R2 & Hlen2 & Eeng2 & Ectx2 & Ecb2
        & Ew2 & _ & _ & Hd2 & Hsh2).
  { unfold archive_prop. now rewrite Hsh1. }
  pose proof (realm_ok_length _ R) as Hwin.
  assert (e < length h) as Helt by (eapply lookup_lt_Some; eauto).
  exists h1, h2, (S (S (length h))), (S (S (length h1))), (length h1).
  split; [exact Hrun1|]. split; [exact Hrun2|]. split; [exact Hd1|].
  split; [now rewrite Hsh2|]. split; [exact Hd2|].
  split; [lia|]. split; [exact Ew2|].
  intros args n. change (4 + n) with (S (S (S (S n)))).
  apply (pass_after_registration h2 e l nm (length h1) (S (length h1)));
    auto; try lia.
  eapply data_lookup_of_own. rewrite Hsh2. exact Hsh1.
Qed.

End CallInterception.

Section CallInterceptionContexts.

Variable env : nat -> option hostfn.



End CallInterceptionContexts.

(** C9. A registration that fails one of the three type checks of
    [whenCall] (the name is not a string, the member is not a function,
    the handle is not a function) throws the error of [typeCheck] and
    leaves the store as it was: nothing is archived and the member is
    not replaced. *)
Theorem whenCall_failure_atomic (call : caller) h e l name handle :
  h !! e = Some (engine_object (VRef l)) ->
  match name with
  | VStr nm =>
      exists m, data_lookup h (VRef l) nm = Some m /\
                (typeof h m <> "function" \/ typeof h handle <> "function")
  | _ => True
  end ->
  exists got expected,
    whenCall call (VRef e) name handle h
    = (Throw (TypeError ("Got " +:+ got +:+ " expected " +:+ expected)), h).
Proof.
  intros Heng Hfail. unfold whenCall.
  destruct name as [| | | | |nm| |];
    try (eexists _, _; apply bind_throw, typeCheck_fail;
         simpl; try destruct (h !! l0) as [[? ? [] ? ?]|]; discriminate).
  destruct Hfail as (m & Hm & Hbad).
  erewrite bind_ret by (apply typeCheck_ok; reflexivity).
  erewrite bind_ret by reflexivity.
  erewrite bind_ret by (apply js_get_data; eapply data_lookup_own; eauto).
  erewrite bind_ret by (apply js_get_data; exact Hm).
  destruct (decide (typeof h m = "function")) as [Hty|Hty].
  - erewrite bind_ret by (apply typeCheck_ok; exact Hty).
    destruct Hbad as [Hbad|Hbad]; [contradiction|].
    eexists _, _. apply bind_throw, typeCheck_fail. exact Hbad.
  - eexists _, _. apply bind_throw, typeCheck_fail. exact Hty.
Qed.

(** * Attribute interception: the properties *)

Lemma resolve_of_own h l key p :
  own h l key = Some p -> resolve h (VRef l) key = Some (Some (l, p)).
Proof.
  unfold own. destruct (h !! l) as [ob|] eqn:E; [|discriminate].
  intros P. eapply resolve_own; eauto.
Qed.




Lemma ex_attr_target :
  attr_target ex_heap ex_engine ex_instance "x"
    (PAccessor (VRef ex_getter) (VRef ex_setter) false true).
Proof.
  unfold attr_target.
  split; [apply realm_ok_app|].
  split; [vm_compute; lia|]. split; [discriminate|].
  split; [reflexivity|].
  split; [eexists; split; reflexivity|].
  repeat split; try reflexivity; eexists; reflexivity.
Defined.

Lemma ex_handles_record :
  handles_record ex_heap ex_get_handles ex_instance true false.
Proof. unfold handles_record. split; [discriminate|]. repeat split. Defined.



(** C3 (the code at the failing input). After the first registration
    the shadow key [_CENSOR_get_x] holds the original getter.  The second
    registration finds the accessor installed by the first one on the
    target itself, writes that wrapper over the shadow entry, and then
    fails in [Object.defineProperty], the property not being
    configurable. *)
Theorem whenAttr_second_registration_overwrites :
  let r1 := ex_whenAttr_once ex_heap in
  let r2 := ex_whenAttr_once (snd r1) in
  let w := 31 in
  fst r1 = Ret (VRef ex_engine) /\
  own (snd r1) ex_instance "_CENSOR_get_x" = Some (field (VRef ex_getter)) /\
  own (snd r1) ex_instance "x"
  = Some (PAccessor (VRef w) VUndefined false false) /\
  fst r2 = Throw (TypeError "Cannot redefine property") /\
  own (snd r2) ex_instance "_CENSOR_get_x" = Some (field (VRef w)) /\
  fn_of (snd r2) (VRef w)
  = Some (FGetWrapper (VRef 30) (VRef ex_engine) "x" (VRef ex_get_handles)).
Proof. vm_compute. repeat split. Qed.

(** C6 (the code at the failing input). When the lookup yields none,
    [whenAttr] throws at [description["set"]], before anything is
    archived: the registration does not complete. *)
Theorem whenAttr_without_descriptor (call : caller) h e l nm handles :
  typeof h handles = "object" ->
  h !! e = Some (engine_object (VRef l)) ->
  getPropertyDescriptor call (VRef l) (VStr nm) 10 h = (Ret VNull, h) ->
  whenAttr call (VRef e) (VStr nm) handles h
  = (Throw (TypeError "Cannot read properties of null"), h).
Proof.
  intros Hty Heng Hnone. unfold whenAttr.
  erewrite bind_ret by (apply typeCheck_ok; reflexivity).
  erewrite bind_ret by (apply typeCheck_ok; exact Hty).
  erewrite bind_ret by reflexivity.
  erewrite bind_ret by (apply engine_object_lookup; exact Heng).
  erewrite bind_ret by exact Hnone.
  erewrite bind_ret by (apply engine_object_lookup; exact Heng).
  reflexivity.
Qed.

Lemma whenAttr_without_descriptor_witness :
  whenAttr (call_fn ex_env 9) (VRef ex_engine) (VStr "y") (VRef ex_get_handles)
    ex_heap
  = (Throw (TypeError "Cannot read properties of null"), ex_heap).
Proof.
  apply (whenAttr_without_descriptor (call_fn ex_env 9) ex_heap ex_engine
           ex_instance "y" (VRef ex_get_handles)); reflexivity.
Defined.

(** A property that is found, but as a data property, gives undefined
    shadow entries; the registration completes and a later pass-through
    fails when it calls the undefined entry. *)
Example ex_data_property_pass_fails :
  fst ((js_set (call_fn ex_env 9) true (VRef ex_instance) "y" (VNum 1);;;
        whenAttr (call_fn ex_env 9) (VRef ex_engine) (VStr "y")
          (VRef ex_get_handles);;;
        js_get (call_fn ex_env 9) (VRef ex_instance) "y") ex_heap)
  = Throw (TypeError "is not a function").
Proof. vm_compute. reflexivity. Qed.

(** * The dispatcher *)

(** C4 (the code at the failing input). [typeof null] is ["object"], so
    [censor(null)] does not fail: it returns an engine whose target is
    [null]. *)
Theorem censor_null_accepted (call : caller) options h :
  censor call VNull options h
  = (Ret (VRef (length h)), h ++ [engine_object VNull]).
Proof.
  unfold censor, new_CensorObject.
  erewrite bind_ret by reflexivity. cbn [typeof bool_decide].
  rewrite bool_decide_eq_true_2 by reflexivity.
  erewrite bind_ret by reflexivity.
  erewrite bind_ret by (apply typeCheck_ok; reflexivity).
  erewrite bind_ret.
  2:{ apply js_set_plain. eapply assign_prop_own.
      - apply list_lookup_middle. reflexivity.
      - reflexivity. }
  rewrite store_app_mid. reflexivity.
Qed.

(** The other classes of input are classified as the specification says:
    an object gives an engine around it, a value that is neither an
    object nor a function is refused, and a class gives a template. *)
Lemma typeof_alloc_object h x v :
  typeof h v = "object" -> fn_of [x] (VRef 0) = None ->
  typeof (h ++ [x]) v = "object".
Proof.
  intros Hty Hx. destruct v; try exact Hty. simpl in *.
  destruct (le_lt_dec (length h) l) as [Hge|Hlt].
  - rewrite lookup_app_r by exact Hge.
    destruct (l - length h) as [|i]; simpl.
    + now destruct x as [? ? [] ? ?].
    + reflexivity.
  - now rewrite lookup_app_l by exact Hlt.
Qed.

Lemma censor_object (call : caller) options h l :
  typeof h (VRef l) = "object" ->
  censor call (VRef l) options h
  = (Ret (VRef (length h)), h ++ [engine_object (VRef l)]).
Proof.
  intros Hty. unfold censor, new_CensorObject.
  erewrite bind_ret by reflexivity.
  rewrite Hty, bool_decide_eq_true_2 by reflexivity.
  erewrite bind_ret by reflexivity.
  erewrite bind_ret
    by (apply typeCheck_ok, typeof_alloc_object; [exact Hty | reflexivity]).
  erewrite bind_ret.
  2:{ apply js_set_plain. eapply assign_prop_own.
      - apply list_lookup_middle. reflexivity.
      - reflexivity. }
  rewrite store_app_mid. reflexivity.
Qed.

Lemma censor_primitive (call : caller) options h v :
  typeof h v <> "object" -> typeof h v <> "function" ->
  censor call v options h
  = (Throw (TypeError ("Can't install censor on " +:+ typeof h v)), h).
Proof.
  intros Ho Hf. unfold censor.
  erewrite bind_ret by reflexivity.
  rewrite bool_decide_eq_false_2 by exact Ho.
  destruct v; try reflexivity.
  simpl in Ho, Hf. destruct (h !! l) as [[? ? [] ? ?]|]; congruence.
Qed.

Example ex_censor_class :
  let r := censor (call_fn ex_env 9) (VRef ex_C) [] ex_heap in
  let template := 28 in
  fst r = Ret (VRef template)
  /\ (o_proto <$> snd r !! template) = Some (VRef CensorClassPrototype)
  /\ data_lookup (snd r) (VRef template) "cls" = Some (VRef ex_C)
  /\ method_lookup (snd r) (VRef window) "C"
     = Some (FGenerated (VRef template)).
Proof. vm_compute. repeat split. Qed.

(** * The example program satisfies the hypotheses *)

Lemma ex_call_target :
  call_target ex_heap ex_engine ex_instance "m" (VRef ex_m).
Proof.
  unfold call_target.
  split; [apply realm_ok_app|].
  split; [vm_compute; lia|]. split; [vm_compute; lia|].
  split; [discriminate|].
  repeat split.
Defined.



(** In the example, [inst.m(1, 2)] is 3 before and after the wrapping. *)
Example ex_pass_fidelity :
  fst ((whenCall (call_fn ex_env 9) (VRef ex_engine) (VStr "m")
          (VRef ex_pass_handle);;;
        call_method (call_fn ex_env 9) (VRef ex_instance) "m"
          [VNum 1; VNum 2]) ex_heap)
  = fst (call_method (call_fn ex_env 9) (VRef ex_instance) "m"
           [VNum 1; VNum 2] ex_heap).
Proof. vm_compute. reflexivity. Qed.

Lemma whenCall_idempotent_capture_witness :
  exists h1 h2 w1 w2 c2,
    (forall k, whenCall (call_fn ex_env (S k)) (VRef ex_engine) (VStr "m")
                 (VRef ex_ctx_handle) ex_heap
               = (Ret (VRef ex_engine), h1)) /\
    (forall k, whenCall (call_fn ex_env (S k)) (VRef ex_engine) (VStr "m")
                 (VRef ex_pass_handle) h1
               = (Ret (VRef ex_engine), h2)) /\
    data_lookup h1 (VRef ex_instance) "m" = Some (VRef w1) /\
    own h2 ex_instance ("_CENSOR_" +:+ "m") = Some (field (VRef ex_m)) /\
    data_lookup h2 (VRef ex_instance) "m" = Some (VRef w2) /\ w2 <> w1 /\
    fn_of h2 (VRef w2)
    = Some (FCallWrapper (async_tag None) (VRef c2) (VRef ex_pass_handle)) /\
    forall args n,
      call_method (call_fn ex_env (4 + n)) (VRef c2) "pass" []
        (wrapper_entry h2 c2 args)
      = call_fn ex_env n (VRef ex_m) (VRef ex_instance) args
          (wrapper_entry h2 c2 args).
Proof.
  apply (whenCall_idempotent_capture ex_env ex_heap ex_engine ex_instance "m"
           (VRef ex_m) (VRef ex_ctx_handle) (VRef ex_pass_handle) None None).
  - exact ex_call_target.
  - split; [reflexivity | eexists; reflexivity].
  - eexists; reflexivity.
  - discriminate.
  - split; reflexivity.
  - split; reflexivity.
Defined.




(** The wrapped asynchronous member of the example resolves to the
    handle's value, 4, and not to the original's, 3. *)
Example ex_async_call_transformed :
  fst (ex_async_call ex_heap) = Ret (VNum 4).
Proof. vm_compute. reflexivity. Qed.

Lemma whenCall_failure_atomic_witness :
  (exists got expected,
     whenCall (call_fn ex_env 9) (VRef ex_engine) (VNum 5)
       (VRef ex_pass_handle) ex_heap
     = (Throw (TypeError ("Got " +:+ got +:+ " expected " +:+ expected)),
        ex_heap)) /\
  (exists got expected,
     whenCall (call_fn ex_env 9) (VRef ex_engine) (VStr "nothing")
       (VRef ex_pass_handle) ex_heap
     = (Throw (TypeError ("Got " +:+ got +:+ " expected " +:+ expected)),
        ex_heap)) /\
  (exists got expected,
     whenCall (call_fn ex_env 9) (VRef ex_engine) (VStr "m")
       (VNum 1) ex_heap
     = (Throw (TypeError ("Got " +:+ got +:+ " expected " +:+ expected)),
        ex_heap)).
Proof.
  split; [|split].
  - apply (whenCall_failure_atomic (call_fn ex_env 9) ex_heap ex_engine
             ex_instance (VNum 5) (VRef ex_pass_handle));
      [reflexivity | exact I].
  - apply (whenCall_failure_atomic (call_fn ex_env 9) ex_heap ex_engine
             ex_instance (VStr "nothing") (VRef ex_pass_handle));
      [reflexivity |].
    exists VUndefined. split; [reflexivity | left; discriminate].
  - apply (whenCall_failure_atomic (call_fn ex_env 9) ex_heap ex_engine
             ex_instance (VStr "m") (VNum 1));
      [reflexivity |].
    exists (VRef ex_m). split; [reflexivity | right; discriminate].
Defined.

(** C1 (the code at the failing input). The capture test of [whenCall]
    calls the target's own [hasOwnProperty].  When that very member is
    intercepted, first with a handle that returns nothing and then with
    the pass-through handle, the second registration runs the first
    handle to learn whether a shadow entry exists, is told that none
    does, and archives the first wrapper over the original: after the
    first registration the shadow key holds the built-in method, after
    the second it holds the first wrapper, and the pass-through of the
    second handle runs the first handle (which yields undefined) where
    the member before any interception yields [false]. *)
Theorem whenCall_hasOwnProperty_archive_overwritten :
  let register handle :=
    whenCall (call_fn ex_env 9) (VRef ex_engine) (VStr "hasOwnProperty")
      (VRef handle) in
  let query :=
    call_method (call_fn ex_env 9) (VRef ex_instance) "hasOwnProperty"
      [VStr "m"] in
  let r1 := register ex_setter ex_heap in
  let r2 := register ex_pass_handle (snd r1) in
  let w1 := 30 in
  fst r1 = Ret (VRef ex_engine) /\
  own (snd r1) ex_instance "_CENSOR_hasOwnProperty"
  = Some (field (VRef hasOwnPropertyFn)) /\
  fn_of (snd r1) (VRef w1)
  = Some (FCallWrapper false (VRef 28) (VRef ex_setter)) /\
  fst r2 = Ret (VRef ex_engine) /\
  own (snd r2) ex_instance "_CENSOR_hasOwnProperty" = Some (field (VRef w1)) /\
  fn_of (snd r2) (VRef w1)
  = Some (FCallWrapper false (VRef 28) (VRef ex_setter)) /\
  fst (query ex_heap) = Ret (VBool false) /\
  fst (query (snd r2)) = Ret VUndefined.
Proof. vm_compute. repeat split. Qed.

(** * The engine's own operations *)

Section Engine.

Variable env : nat -> option hostfn.
Variables (hp : heap) (e l : loc).

Hypothesis Hrealm : realm_ok hp.
Hypothesis He_ge : window <= e.
Hypothesis Heng : hp !! e = Some (engine_object (VRef l)).

Lemma engine_method key fn_loc fn_kind :
  lookup_chain window (take window realm) (VRef CensorObjectPrototype) key
  = Some (Some (CensorObjectPrototype, method fn_loc)) ->
  fn_loc < window ->
  fn_of realm (VRef fn_loc) = Some fn_kind ->
  o_props (engine_object (VRef l)) !! key = None ->
  method_lookup hp (VRef e) key = Some fn_kind.
Proof.
  intros L Hlt F P. unfold method_lookup, data_lookup.
  rewrite (resolve_via_realm hp e _ key _ Hrealm He_ge Heng P L).
  now apply realm_fn_of.
Qed.

(** [engine.call(name, ...args)] applies what the shadow key holds. *)
Lemma engine_call_step nm f n args :
  data_lookup hp (VRef l) ("_CENSOR_" +:+ nm) = Some f ->
  call_method (call_fn env (S n)) (VRef e) "call" (VStr nm :: args) hp
  = call_fn env n f (VRef l) args hp.
Proof.
  intros Hf.
  rewrite (call_method_dispatch env _ _ _ _ FCall).
  2:{ apply (engine_method "call" callFn);
        [reflexivity | unfold callFn, window; lia | reflexivity | reflexivity]. }
  cbn [dispatch arg nth tail]. unfold CensorObject_call.
  erewrite bind_ret.
  2:{ apply js_get_data. eapply data_lookup_own; eauto. }
  erewrite bind_ret by reflexivity.
  unfold call_method.
  erewrite bind_ret by (apply js_get_data; exact Hf).
  reflexivity.
Qed.

(** [engine.getAttr(name)] *)
Lemma engine_getAttr_step nm f n args :
  data_lookup hp (VRef l) ("_CENSOR_get_" +:+ nm) = Some f ->
  call_method (call_fn env (S n)) (VRef e) "getAttr" (VStr nm :: args) hp
  = call_fn env n f (VRef l) [] hp.
Proof.
  intros Hf.
  rewrite (call_method_dispatch env _ _ _ _ FGetAttr).
  2:{ apply (engine_method "getAttr" getAttrFn);
        [reflexivity | unfold getAttrFn, window; lia | reflexivity
        | reflexivity]. }
  cbn [dispatch arg nth]. unfold CensorObject_getAttr.
  erewrite bind_ret.
  2:{ apply js_get_data. eapply data_lookup_own; eauto. }
  erewrite bind_ret by reflexivity.
  unfold call_method.
  erewrite bind_ret by (apply js_get_data; exact Hf).
  reflexivity.
Qed.

(** [engine.setAttr(name, asgn)] *)
Lemma engine_setAttr_step nm f n v rest :
  data_lookup hp (VRef l) ("_CENSOR_set_" +:+ nm) = Some f ->
  call_method (call_fn env (S n)) (VRef e) "setAttr" (VStr nm :: v :: rest) hp
  = (call_fn env n f (VRef l) [v];;; ret VUndefined) hp.
Proof.
  intros Hf.
  rewrite (call_method_dispatch env _ _ _ _ FSetAttr).
  2:{ apply (engine_method "setAttr" setAttrFn);
        [reflexivity | unfold setAttrFn, window; lia | reflexivity
        | reflexivity]. }
  cbn [dispatch arg nth]. unfold CensorObject_setAttr.
  erewrite bind_ret.
  2:{ apply js_get_data. eapply data_lookup_own; eauto. }
  erewrite bind_ret by reflexivity.
  unfold call_method, bind.
  rewrite (js_get_data (call_fn env n) _ _ _ _ Hf).
  reflexivity.
Qed.

End Engine.

Lemma realm_ok_alloc h t : realm_ok h -> realm_ok (h ++ t).
Proof.
  intros R. eapply (frame_realm_ok [] window); [apply frame_alloc | lia | exact R].
Qed.

Lemma call_fn_undefined env n this args h :
  call_fn env n VUndefined this args h
  = (Throw (TypeError "is not a function"), h).
Proof. destruct n; reflexivity. Qed.

Lemma data_lookup_missing h o key :
  resolve h o key = Some None -> data_lookup h o key = Some VUndefined.
Proof. unfold data_lookup. now intros ->. Qed.

(** X1. Before a member or attribute has been intercepted, the shadow
    keys are absent from the target and its prototypes, and the three
    engine operations that bypass the handles, [call], [getAttr] and
    [setAttr], throw a TypeError (the absent entry is not a function)
    and leave the store as it was. *)
Theorem engine_bypass_unregistered (env : nat -> option hostfn) h e l nm :
  realm_ok h -> window <= e ->
  h !! e = Some (engine_object (VRef l)) ->
  (resolve h (VRef l) ("_CENSOR_" +:+ nm) = Some None ->
   forall n args,
     call_method (call_fn env (S n)) (VRef e) "call" (VStr nm :: args) h
     = (Throw (TypeError "is not a function"), h)) /\
  (resolve h (VRef l) ("_CENSOR_get_" +:+ nm) = Some None ->
   forall n,
     call_method (call_fn env (S n)) (VRef e) "getAttr" [VStr nm] h
     = (Throw (TypeError "is not a function"), h)) /\
  (resolve h (VRef l) ("_CENSOR_set_" +:+ nm) = Some None ->
   forall n v,
     call_method (call_fn env (S n)) (VRef e) "setAttr" [VStr nm; v] h
     = (Throw (TypeError "is not a function"), h)).
Proof.
  intros R He Heng. repeat split.
  - intros Hr n args.
    erewrite engine_call_step by eauto using data_lookup_missing.
    apply call_fn_undefined.
  - intros Hr n.
    erewrite engine_getAttr_step by eauto using data_lookup_missing.
    apply call_fn_undefined.
  - intros Hr n v.
    erewrite engine_setAttr_step by eauto using data_lookup_missing.
    unfold bind. now rewrite call_fn_undefined.
Qed.

Lemma engine_bypass_unregistered_witness :
  (forall n args,
     call_method (call_fn ex_env (S n)) (VRef ex_engine) "call"
       (VStr "m" :: args) ex_heap
     = (Throw (TypeError "is not a function"), ex_heap)) /\
  (forall n,
     call_method (call_fn ex_env (S n)) (VRef ex_engine) "getAttr"
       [VStr "x"] ex_heap
     = (Throw (TypeError "is not a function"), ex_heap)) /\
  (forall n v,
     call_method (call_fn ex_env (S n)) (VRef ex_engine) "setAttr"
       [VStr "x"; v] ex_heap
     = (Throw (TypeError "is not a function"), ex_heap)).
Proof.
  split; [|split].
  - apply (engine_bypass_unregistered ex_env ex_heap ex_engine ex_instance "m");
      [apply realm_ok_app | vm_compute; lia | reflexivity | reflexivity].
  - apply (engine_bypass_unregistered ex_env ex_heap ex_engine ex_instance "x");
      [apply realm_ok_app | vm_compute; lia | reflexivity | reflexivity].
  - apply (engine_bypass_unregistered ex_env ex_heap ex_engine ex_instance "x");
      [apply realm_ok_app | vm_compute; lia | reflexivity | reflexivity].
Defined.

(** * More on call interception *)



Lemma not_elem_of_pair (a b x : string) : x <> a -> x <> b -> x ∉ [a; b].
Proof.
  intros Ha Hb. rewrite !elem_of_cons, elem_of_nil. intros [E|[E|[]]]; auto.
Qed.


Section CallInterceptionMore.

Variable env : nat -> option hostfn.










End CallInterceptionMore.

(** ** The example program and the further properties of call
       interception *)





(** In the example, the member wrapped with the throwing handle throws
    ["refused"], and wrapped with the asynchronous one it returns a
    promise rejected with ["refused"]. *)
Example ex_handle_throws :
  let sync :=
    (whenCall (call_fn ex_env2 9) (VRef ex_engine) (VStr "m")
       (VRef ex_throwing_handle);;;
     call_method (call_fn ex_env2 9) (VRef ex_instance) "m" [VNum 1; VNum 2])
      ex_heap2 in
  let async :=
    (whenCall (call_fn ex_env2 9) (VRef ex_engine) (VStr "m")
       (VRef ex_async_throwing_handle);;;
     call_method (call_fn ex_env2 9) (VRef ex_instance) "m" [VNum 1; VNum 2])
      ex_heap2 in
  fst sync = Throw (Thrown (VStr "refused"))
  /\ exists p, fst async = Ret p
     /\ promise_state (snd async) p = Some (Rejected (Thrown (VStr "refused"))).
Proof. vm_compute. split; [reflexivity|]. eexists. split; reflexivity. Qed.



(** * More on attribute interception *)

(** ** The context's methods, for any callback *)

Section ContextMethods.

Variable env : nat -> option hostfn.
Variables (hp : heap) (c a : loc) (nm : string) (parent cb : value).

Hypothesis Hrealm : realm_ok hp.
Hypothesis Hc_ge : window <= c.
Hypothesis Hctx : hp !! c = Some (context_object parent nm cb (VRef a)).

Lemma context_inherits key fn_loc fn_kind :
  lookup_chain window (take window realm) (VRef CensorContextPrototype) key
  = Some (Some (CensorContextPrototype, method fn_loc)) ->
  fn_loc < window ->
  fn_of realm (VRef fn_loc) = Some fn_kind ->
  o_props (context_object parent nm cb (VRef a)) !! key = None ->
  data_lookup hp (VRef c) key = Some (VRef fn_loc)
  /\ method_lookup hp (VRef c) key = Some fn_kind.
Proof.
  intros L Hlt F P.
  assert (data_lookup hp (VRef c) key = Some (VRef fn_loc)) as D.
  { unfold data_lookup.
    now rewrite (resolve_via_realm hp c _ key _ Hrealm Hc_ge Hctx P L). }
  split; [exact D|]. unfold method_lookup. rewrite D.
  now apply realm_fn_of.
Qed.

(** [ctx.next(...args')] applies the callback of the context. *)
Lemma next_calls_callback n args' :
  call_method (call_fn env (S n)) (VRef c) "next" args' hp
  = call_fn env n cb (VRef c) args' hp.
Proof.
  destruct (context_inherits "next" nextFn FContextNext) as [_ Hm];
    [reflexivity | unfold nextFn, window; lia | reflexivity | reflexivity |].
  rewrite (call_method_dispatch env _ _ _ _ _ _ Hm).
  cbn [dispatch]. unfold CensorContext_next, call_method.
  erewrite bind_ret.
  2:{ apply js_get_data. eapply data_lookup_own; eauto. }
  reflexivity.
Qed.

(** [ctx.pass()] applies it to the stored arguments. *)
Lemma pass_calls_callback n args :
  hp !! a = Some (array args) ->
  call_method (call_fn env (S (S n))) (VRef c) "pass" [] hp
  = call_fn env n cb (VRef c) args hp.
Proof.
  intros Hargs.
  destruct (context_inherits "pass" passFn FContextPass) as [_ Hm];
    [reflexivity | unfold passFn, window; lia | reflexivity | reflexivity |].
  destruct (context_inherits "next" nextFn FContextNext) as [Hd Hn];
    [reflexivity | unfold nextFn, window; lia | reflexivity | reflexivity |].
  rewrite (call_method_dispatch env _ _ _ _ _ _ Hm).
  cbn [dispatch]. unfold CensorContext_pass.
  erewrite bind_ret by (apply js_get_data; exact Hd).
  erewrite bind_ret.
  2:{ apply js_get_data. eapply data_lookup_own; eauto. }
  erewrite bind_ret.
  2:{ unfold spread, bind, get_obj. rewrite Hargs. reflexivity. }
  pose proof (next_calls_callback n args) as Hnext.
  unfold call_method in Hnext.
  erewrite bind_ret in Hnext by (apply js_get_data; exact Hd).
  exact Hnext.
Qed.

End ContextMethods.

(** ** Entering an accessor wrapper *)

Section AccessorEntry.

Variables (h : heap) (c : loc) (args : list value) (callback : fn).
Variables (parent : value) (nm : string) (cb a0 : value).

Hypothesis Hctx : h !! c = Some (context_object parent nm cb a0).

Lemma accessor_entry_frame :
  frame ["args"; "callback"] c h (accessor_entry h c args callback).
Proof.
  unfold accessor_entry.
  eapply frame_trans.
  { eapply frame_weaken; [|apply wrapper_entry_frame].
    intros x Hx. apply list_elem_of_singleton in Hx as ->.
    apply list_elem_of_here. }
  eapply frame_trans; [apply frame_alloc|].
  apply frame_store. apply list_elem_of_further, list_elem_of_here.
Qed.

Lemma accessor_entry_context :
  accessor_entry h c args callback !! c
  = Some (context_object parent nm (VRef (S (length h))) (VRef (length h))).
Proof.
  unfold accessor_entry.
  assert (c < length h) as Hlt by (eapply lookup_lt_Some; eauto).
  erewrite store_lookup_eq.
  2:{ rewrite lookup_app_l.
      - eapply wrapper_entry_context; eauto.
      - unfold wrapper_entry. rewrite store_length, length_app. lia. }
  reflexivity.
Qed.

Lemma accessor_entry_length_inner :
  length (wrapper_entry h c args) = S (length h).
Proof. unfold wrapper_entry. rewrite store_length, length_app. simpl. lia. Qed.

Lemma accessor_entry_args :
  accessor_entry h c args callback !! length h = Some (array args).
Proof.
  assert (c < length h) as Hlt by (eapply lookup_lt_Some; eauto).
  unfold accessor_entry. rewrite store_lookup_ne by lia.
  rewrite lookup_app_l by (rewrite accessor_entry_length_inner; lia).
  now apply wrapper_entry_args.
Qed.

Lemma accessor_entry_callback :
  accessor_entry h c args callback !! S (length h)
  = Some (closure false callback).
Proof.
  assert (c < length h) as Hlt by (eapply lookup_lt_Some; eauto).
  unfold accessor_entry. rewrite store_lookup_ne by lia.
  rewrite <- accessor_entry_length_inner.
  apply list_lookup_middle. reflexivity.
Qed.

(** The first four statements of an accessor wrapper. *)
Lemma accessor_prologue (call : caller) (rest : M value) :
  (let! arr := alloc (array args) in
   js_set call true (VRef c) "args" arr;;;
   let! f := alloc (closure false callback) in
   js_set call true (VRef c) "callback" f;;; rest) h
  = rest (accessor_entry h c args callback).
Proof.
  erewrite wrapper_prologue by exact Hctx.
  assert (c < length h) as Hlt by (eapply lookup_lt_Some; eauto).
  erewrite bind_ret by reflexivity.
  rewrite accessor_entry_length_inner.
  erewrite bind_ret.
  2:{ apply js_set_plain. eapply assign_prop_own.
      - rewrite lookup_app_l by (rewrite accessor_entry_length_inner; lia).
        eapply wrapper_entry_context; eauto.
      - reflexivity. }
  reflexivity.
Qed.

End AccessorEntry.

(** ** The store after [whenAttr] *)

Section WhenAttrHeap.

Variables (h : heap) (e l : loc) (nm : string) (handles : value) (p : prop).
Variables (has_get has_set : bool) (ob : object).

Hypothesis Hob : h !! l = Some ob.

Local Abbreviation h1 := (whenAttr_heap h e l nm handles p has_get has_set).
Local Abbreviation setkey := ("_CENSOR_set_" +:+ nm).
Local Abbreviation getkey := ("_CENSOR_get_" +:+ nm).

Lemma whenAttr_heap_frame : frame [setkey; getkey; nm] l h h1.
Proof.
  unfold whenAttr_heap.
  eapply frame_trans; [|apply frame_alloc].
  eapply frame_trans; [eapply frame_trans|]; apply frame_store.
  - apply list_elem_of_here.
  - apply list_elem_of_further, list_elem_of_here.
  - do 2 apply list_elem_of_further. apply list_elem_of_here.
Qed.

Lemma whenAttr_heap_new i x :
  ([ descriptor_of p
   ; with_props plain
       ((if has_set
         then <["set" := field (VRef (if has_get
                                     then S (S (S (S (length h))))
                                     else S (S (S (length h)))))]>
         else id)
          ((if has_get then <["get" := field (VRef (S (S (S (length h)))))]>
            else id) ∅))
   ; context_object (VRef e) nm VUndefined VUndefined ]
   ++ (if has_get
       then [closure false
               (FGetWrapper (VRef (S (S (length h)))) (VRef e) nm handles)]
       else [])
   ++ (if has_set
       then [closure false
               (FSetWrapper (VRef (S (S (length h)))) (VRef e) nm handles)]
       else [])) !! i = Some x ->
  h1 !! (length h + i) = Some x.
Proof.
  intros E. unfold whenAttr_heap.
  rewrite lookup_app_r by (rewrite !store_length; lia).
  rewrite !store_length.
  replace (length h + i - length h) with i by lia. exact E.
Qed.

Lemma whenAttr_heap_context :
  h1 !! S (S (length h))
  = Some (context_object (VRef e) nm VUndefined VUndefined).
Proof.
  replace (S (S (length h))) with (length h + 2) by lia.
  apply whenAttr_heap_new. reflexivity.
Qed.

Lemma whenAttr_heap_getter :
  has_get = true ->
  h1 !! S (S (S (length h)))
  = Some (closure false
            (FGetWrapper (VRef (S (S (length h)))) (VRef e) nm handles)).
Proof.
  intros Hg. replace (S (S (S (length h)))) with (length h + 3) at 1 by lia.
  apply whenAttr_heap_new. rewrite Hg. reflexivity.
Qed.


Lemma whenAttr_heap_own :
  own h1 l nm
  = Some (new_own_property
            (if has_get then Some (VRef (S (S (S (length h))))) else None)
            (if has_set
             then Some (VRef (if has_get then S (S (S (S (length h))))
                              else S (S (S (length h)))))
             else None))
  /\ own h1 l getkey = Some (field (getter_of p))
  /\ own h1 l setkey = Some (field (setter_of p)).
Proof.
  assert (l < length h) as Hlt by (eapply lookup_lt_Some; eauto).
  unfold whenAttr_heap.
  rewrite !own_app_l by (now rewrite !store_length).
  destruct (frame_lookup_target _ _ _ _ _
              (whenAttr_base_frame h l nm p []) Hob) as (ps & E & _).
  rewrite app_nil_r in E.
  split; [|split].
  - erewrite own_store_eq by exact E. reflexivity.
  - rewrite own_store_ne by apply name_ne_censor_get.
    erewrite own_store_eq; [reflexivity|].
    apply store_lookup_eq. exact Hob.
  - rewrite own_store_ne by apply name_ne_censor_set.
    rewrite own_store_ne by apply censor_key_ne_set_get.
    erewrite own_store_eq; [reflexivity | exact Hob].
Qed.

End WhenAttrHeap.

Lemma engine_above_realm h e target :
  realm_ok h -> h !! e = Some (engine_object target) -> window <= e.
Proof.
  intros R E. destruct (le_lt_dec window e) as [|Hlt]; [assumption|].
  exfalso. rewrite (R e Hlt) in E. unfold window in Hlt.
  do 15 (destruct e as [|e]; [discriminate E|]). lia.
Qed.

Section AttributeRoundTrip.

Variable env : nat -> option hostfn.
Variables (h : heap) (e l hl : loc) (nm : string) (p : prop).
Variables (has_get has_set : bool).

Hypothesis Ht : attr_target h e l nm p.
Hypothesis Hh : handles_record h hl l has_get has_set.

Local Abbreviation h1 := (whenAttr_heap h e l nm (VRef hl) p has_get has_set).
Local Abbreviation c := (S (S (length h))).

(** What the accessor wrappers find when they run. *)
Lemma whenAttr_heap_entry args callback :
  let hE := accessor_entry h1 c args callback in
  realm_ok hE /\ window <= e /\ window <= c /\
  hE !! e = Some (engine_object (VRef l)) /\
  hE !! c = Some (context_object (VRef e) nm (VRef (S (length h1)))
                    (VRef (length h1))) /\
  hE !! length h1 = Some (array args) /\
  fn_of hE (VRef (S (length h1))) = Some callback /\
  data_lookup hE (VRef l) ("_CENSOR_get_" +:+ nm) = Some (getter_of p) /\
  data_lookup hE (VRef l) ("_CENSOR_set_" +:+ nm) = Some (setter_of p) /\
  forall key handle w en cf f,
    own h hl key = Some (PData handle w en cf) -> fn_of h handle = Some f ->
    method_lookup hE (VRef hl) key = Some f.
Proof.
  destruct Ht as (R & Hl & Hne & Heng & (ob & Hob & Hext) & _).
  destruct Hh as (Hhne & _).
  pose proof (realm_ok_length _ R) as Hwin.
  pose proof (engine_above_realm _ _ _ R Heng) as He.
  assert (l < length h) as Hlt by (eapply lookup_lt_Some; eauto).
  assert (e < length h) as Helt by (eapply lookup_lt_Some; eauto).
  pose proof (whenAttr_heap_frame h e l nm (VRef hl) p has_get has_set) as F.
  pose proof (whenAttr_heap_context h e l nm (VRef hl) p has_get has_set)
    as Ectx.
  pose proof (accessor_entry_frame h1 c args callback) as FE.
  destruct (whenAttr_heap_own h e l nm (VRef hl) p has_get has_set ob Hob)
    as (_ & Hg & Hs).
  assert (realm_ok h1) as R1 by (eapply frame_realm_ok; eauto).
  intros hE.
  split; [eapply frame_realm_ok; [exact FE | lia | exact R1]|].
  split; [exact He|]. split; [lia|].
  split.
  { eapply frame_lookup_other; [exact FE | lia |].
    eapply frame_lookup_other; eauto. }
  split; [eapply accessor_entry_context; eauto|].
  split; [eapply accessor_entry_args; eauto|].
  split.
  { simpl. unfold hE. erewrite accessor_entry_callback by eauto.
    reflexivity. }
  assert (forall key v, key <> "args" -> key <> "callback" ->
            data_lookup h1 (VRef l) key = Some v ->
            data_lookup hE (VRef l) key = Some v) as Hup.
  { intros key v H1 H2. eapply frame_data_lookup; [exact FE|].
    now apply not_elem_of_pair. }
  split; [apply Hup; [discriminate | discriminate |];
          eapply data_lookup_of_own; eauto|].
  split; [apply Hup; [discriminate | discriminate |];
          eapply data_lookup_of_own; eauto|].
  intros key handle w en cf f Ho Hf.
  unfold own in Ho. destruct (h !! hl) as [hob|] eqn:Ehl; [|discriminate].
  assert (hl < length h) as Hhlt by (eapply lookup_lt_Some; eauto).
  unfold method_lookup. erewrite data_lookup_own.
  - eapply frame_fn_of; [exact FE|]. eapply frame_fn_of; eauto.
  - eapply frame_lookup_other; [exact FE | lia |].
    eapply frame_lookup_other; eauto.
  - exact Ho.
Qed.

(** X7. Reading an intercepted attribute whose [get] handle is
    [(ctx) => ctx.pass()] runs the archived original getter on the
    target, with no arguments. *)
Theorem whenAttr_get_pass_through handle w en cf hid :
  has_get = true ->
  own h hl "get" = Some (PData handle w en cf) ->
  fn_of h handle = Some (FHost false hid) ->
  env hid = Some pass_through ->
  exists h1',
    (forall k, whenAttr (call_fn env (S k)) (VRef e) (VStr nm) (VRef hl) h
               = (Ret (VRef e), h1')) /\
    own h1' l ("_CENSOR_get_" +:+ nm) = Some (field (getter_of p)) /\
    forall n,
      js_get (call_fn env (6 + n)) (VRef l) nm h1'
      = call_fn env n (getter_of p) (VRef l) []
          (accessor_entry h1' c [] (FGetCallback (VRef e) nm)).
Proof.
  intros Hg Ho Hf Henv. exists h1.
  split; [intros k; now apply whenAttr_ok|].
  destruct (whenAttr_heap_entry [] (FGetCallback (VRef e) nm))
    as (RE & He & Hc & EengE & EctxE & EargsE & EcbE & HgE & _ & HhE).
  destruct Ht as (R & Hl & Hne & Heng & (ob & Hob & Hext) & _).
  destruct (whenAttr_heap_own h e l nm (VRef hl) p has_get has_set ob Hob)
    as (Hown & Hgk & _).
  split; [exact Hgk|].
  pose proof (whenAttr_heap_context h e l nm (VRef hl) p has_get has_set)
    as Ectx.
  pose proof (whenAttr_heap_getter h e l nm (VRef hl) p has_get has_set Hg)
    as Egw.
  intros n. change (6 + n) with (S (S (S (S (S (S n)))))).
  assert (exists s, own h1 l nm
                    = Some (PAccessor (VRef (S (S (S (length h)))))
                              s false false)) as [s Hown'].
  { rewrite Hown, Hg. unfold new_own_property. eauto. }
  unfold js_get at 1, bind at 1, find_prop.
  fold (resolve h1 (VRef l) nm). rewrite (resolve_of_own _ _ _ _ Hown').
  cbv iota beta.
  erewrite call_fn_dispatch by (simpl; rewrite Egw; reflexivity).
  cbn [dispatch].
  erewrite accessor_prologue by exact Ectx.
  erewrite call_method_dispatch by (eapply HhE; eauto).
  cbn [dispatch]. rewrite Henv. unfold pass_through. cbn [arg nth].
  erewrite pass_calls_callback by eauto.
  erewrite call_fn_dispatch by exact EcbE.
  cbn [dispatch].
  eapply engine_getAttr_step; eauto.
Qed.


End AttributeRoundTrip.

(** X9. [whenAttr] checks its two arguments before it touches anything:
    a name that is not a string, or handles that are not of type object
    (a function, for one), give the error of [typeCheck], in this order,
    and the store is left as it was. *)
Theorem whenAttr_failure_atomic (call : caller) h this name handles :
  (typeof h name <> "string" ->
   whenAttr call this name handles h
   = (Throw (TypeError ("Got " +:+ typeof h name +:+ " expected string")), h))
  /\
  (typeof h name = "string" -> typeof h handles <> "object" ->
   whenAttr call this name handles h
   = (Throw (TypeError ("Got " +:+ typeof h handles +:+ " expected object")),
      h)).
Proof.
  split.
  - intros Hn. unfold whenAttr. apply bind_throw, typeCheck_fail. exact Hn.
  - intros Hn Hh. unfold whenAttr.
    erewrite bind_ret by (apply typeCheck_ok; exact Hn).
    apply bind_throw, typeCheck_fail. exact Hh.
Qed.

Lemma whenAttr_failure_atomic_witness :
  whenAttr (call_fn ex_env 9) (VRef ex_engine) (VNum 3) (VRef ex_get_handles)
    ex_heap
  = (Throw (TypeError "Got number expected string"), ex_heap)
  /\ whenAttr (call_fn ex_env 9) (VRef ex_engine) (VStr "x")
       (VRef ex_pass_handle) ex_heap
     = (Throw (TypeError "Got function expected object"), ex_heap).
Proof.
  split.
  - apply (whenAttr_failure_atomic (call_fn ex_env 9) ex_heap (VRef ex_engine)
             (VNum 3) (VRef ex_get_handles)).
    discriminate.
  - apply (whenAttr_failure_atomic (call_fn ex_env 9) ex_heap (VRef ex_engine)
             (VStr "x") (VRef ex_pass_handle)).
    + reflexivity.
    + discriminate.
Defined.



(** ** The example program and the attribute round trips *)



Lemma whenAttr_get_pass_through_witness :
  exists h1',
    (forall k, whenAttr (call_fn ex_env (S k)) (VRef ex_engine) (VStr "x")
                 (VRef ex_get_handles) ex_heap
               = (Ret (VRef ex_engine), h1')) /\
    own h1' ex_instance ("_CENSOR_get_" +:+ "x")
    = Some (field (getter_of
                     (PAccessor (VRef ex_getter) (VRef ex_setter) false true)))
    /\
    forall n,
      js_get (call_fn ex_env (6 + n)) (VRef ex_instance) "x" h1'
      = call_fn ex_env n
          (getter_of (PAccessor (VRef ex_getter) (VRef ex_setter) false true))
          (VRef ex_instance) []
          (accessor_entry h1' (S (S (length ex_heap))) []
             (FGetCallback (VRef ex_engine) "x")).
Proof.
  apply (whenAttr_get_pass_through ex_env ex_heap ex_engine ex_instance
           ex_get_handles "x"
           (PAccessor (VRef ex_getter) (VRef ex_setter) false true)
           true false ex_attr_target ex_handles_record
           (VRef ex_pass_handle) true true true 1);
    reflexivity.
Defined.


(** In the example, reading [inst.x] through the pass-through handle
    gives the 7 of the original getter. *)
Example ex_attr_read_through :
  fst ((whenAttr (call_fn ex_env2 9) (VRef ex_engine) (VStr "x")
          (VRef ex_both_handles);;;
        js_get (call_fn ex_env2 9) (VRef ex_instance) "x") ex_heap3)
  = Ret (VNum 7)
  /\ fst ((whenAttr (call_fn ex_env2 9) (VRef ex_engine) (VStr "x")
             (VRef ex_both_handles);;;
           js_set (call_fn ex_env2 9) true (VRef ex_instance) "x" (VNum 1))
            ex_heap3)
     = Ret tt.
Proof. vm_compute. split; reflexivity. Qed.

(** * Class templates *)

(** [accessName ?? cls.name] *)
Lemma access_name_step (call : caller) h hX cl accessName nmv :
  access_name h (VRef cl) accessName = Some nmv ->
  (forall v, data_lookup h (VRef cl) "name" = Some v ->
             data_lookup hX (VRef cl) "name" = Some v) ->
  match match accessName with VUndefined => VNull | _ => accessName end with
  | VNull => js_get call (VRef cl) "name"
  | _ => ret match accessName with VUndefined => VNull | _ => accessName end
  end hX = (Ret nmv, hX).
Proof.
  unfold access_name. intros Hname Hup.
  destruct accessName; try (simplify_eq; reflexivity);
    apply js_get_data, Hup, Hname.
Qed.

(** The constructor up to the three registries. *)
Lemma new_CensorClass_registries (call : caller) h cl accessName implementOn
    nmv :
  let t := length h in
  realm_ok h ->
  typeof h (VRef cl) = "function" ->
  access_name h (VRef cl) accessName = Some nmv ->
  new_CensorClass call (VRef cl) accessName implementOn h
  = ((if negb (strict_eq
                 match implementOn with
                 | VUndefined => VRef window
                 | _ => implementOn
                 end VNull)
      then
        let! key := js_get call (VRef t) "name" in
        let! g := call_method call (VRef t) "genFunc" [] in
        let! key := string_arg key in
        js_set call true
          match implementOn with
          | VUndefined => VRef window
          | _ => implementOn
          end key g
      else ret tt);;;
     ret (VRef t))
      (h ++ [template_object (VRef cl) nmv t; plain; plain; plain]).
Proof.
  intros t Hrealm Hfun Hname. subst t.
  pose proof (realm_ok_length _ Hrealm) as Hwin.
  unfold new_CensorClass.
  erewrite bind_ret by reflexivity.
  erewrite bind_ret.
  2:{ apply typeCheck_ok. eapply frame_typeof_function;
        [apply (frame_alloc [] 0) | exact Hfun]. }
  erewrite bind_ret.
  2:{ apply js_set_plain. eapply assign_prop_own.
      - apply list_lookup_middle. reflexivity.
      - reflexivity. }
  rewrite store_app_mid. cbn [with_props o_props].
  erewrite bind_ret.
  2:{ eapply access_name_step; [exact Hname|].
      intros v Hv. eapply frame_data_lookup;
        [apply (frame_alloc [] 0) | apply not_elem_of_nil | exact Hv]. }
  erewrite bind_ret.
  2:{ apply js_set_plain. eapply assign_prop_own.
      - apply list_lookup_middle. reflexivity.
      - reflexivity. }
  rewrite store_app_mid. cbn [with_props o_props].
  (* this.#eventHandles = {} *)
  erewrite bind_ret by reflexivity.
  rewrite <- app_assoc, length_app. simpl app. simpl length.
  rewrite Nat.add_1_r.
  erewrite bind_ret.
  2:{ apply js_set_plain. eapply assign_prop_new.
      - apply list_lookup_middle. reflexivity.
      - reflexivity.
      - eapply resolve_via_realm.
        + apply realm_ok_alloc, Hrealm.
        + exact Hwin.
        + apply list_lookup_middle. reflexivity.
        + reflexivity.
        + reflexivity. }
  rewrite store_app_mid. cbn [with_props o_props].
  (* this.#callHandles = {} *)
  erewrite bind_ret by reflexivity.
  rewrite <- app_assoc, length_app. simpl app. simpl length.
  replace (length h + 2) with (S (S (length h))) by lia.
  erewrite bind_ret.
  2:{ apply js_set_plain. eapply assign_prop_new.
      - apply list_lookup_middle. reflexivity.
      - reflexivity.
      - eapply resolve_via_realm.
        + apply realm_ok_alloc, Hrealm.
        + exact Hwin.
        + apply list_lookup_middle. reflexivity.
        + reflexivity.
        + reflexivity. }
  rewrite store_app_mid. cbn [with_props o_props].
  (* this.#attrHandles = {} *)
  erewrite bind_ret by reflexivity.
  rewrite <- app_assoc, length_app. simpl app. simpl length.
  replace (length h + 3) with (S (S (S (length h)))) by lia.
  erewrite bind_ret.
  2:{ apply js_set_plain. eapply assign_prop_new.
      - apply list_lookup_middle. reflexivity.
      - reflexivity.
      - eapply resolve_via_realm.
        + apply realm_ok_alloc, Hrealm.
        + exact Hwin.
        + apply list_lookup_middle. reflexivity.
        + reflexivity.
        + reflexivity. }
  rewrite store_app_mid. cbn [with_props o_props].
  reflexivity.
Qed.


Lemma censor_class_step (call : caller) h cl options :
  class_value h cl ->
  censor call (VRef cl) options h
  = new_CensorClass call (VRef cl) (nth 0 options VUndefined)
      (nth 1 options VUndefined) h.
Proof.
  intros (Hfun & cob & Hcl & Hreach). unfold censor.
  erewrite bind_ret by reflexivity.
  rewrite Hfun. rewrite bool_decide_eq_false_2 by discriminate.
  erewrite bind_ret.
  2:{ unfold instanceof_Object, bind, get_obj. rewrite Hcl, Hreach.
      reflexivity. }
  reflexivity.
Qed.

(** X11. [censor(cls, accessName, null)] builds a detached template:
    the store is extended by the template and its three empty
    registries and nothing that existed is changed (in particular
    nothing is installed on [window]); the template holds the class and
    the name [accessName ?? cls.name]. *)
Theorem censor_class_detached (call : caller) h cl accessName nmv rest :
  realm_ok h ->
  class_value h cl ->
  access_name h (VRef cl) accessName = Some nmv ->
  censor call (VRef cl) (accessName :: VNull :: rest) h
  = (Ret (VRef (length h)),
     h ++ [template_object (VRef cl) nmv (length h); plain; plain; plain]).
Proof.
  intros R Hc Hn. rewrite (censor_class_step _ _ _ _ Hc). cbn [nth].
  rewrite (new_CensorClass_registries call h cl accessName VNull nmv R
             (proj1 Hc) Hn).
  reflexivity.
Qed.

Lemma ex_class_value : class_value ex_heap ex_C.
Proof. split; [reflexivity|]. eexists. split; reflexivity. Defined.

Lemma censor_class_detached_witness :
  censor (call_fn ex_env 9) (VRef ex_C) [VNull; VNull] ex_heap
  = (Ret (VRef (length ex_heap)),
     ex_heap ++ [template_object (VRef ex_C) (VStr "C") (length ex_heap);
                 plain; plain; plain]).
Proof.
  apply (censor_class_detached (call_fn ex_env 9) ex_heap ex_C VNull
           (VStr "C") []).
  - apply realm_ok_app.
  - exact ex_class_value.
  - reflexivity.
Defined.

(** X12. Without [implementOn = null], [censor(cls, ...)] also assigns
    the function made by [genFunc] to the property [accessName ??
    cls.name] of the target object ([window] by default): that property
    then holds a new function closed over the template, and apart from
    this one property nothing that existed is changed. *)
Theorem censor_class_implemented (env : nat -> option hostfn) h cl options
    io nm :
  realm_ok h ->
  class_value h cl ->
  implement_target (nth 1 options VUndefined) = Some io ->
  access_name h (VRef cl) (nth 0 options VUndefined) = Some (VStr nm) ->
  is_Some (assign_prop h io nm VUndefined) ->
  exists h1 g,
    (forall k, censor (call_fn env (S k)) (VRef cl) options h
               = (Ret (VRef (length h)), h1)) /\
    frame [nm] io h h1 /\
    h1 !! length h = Some (template_object (VRef cl) (VStr nm) (length h)) /\
    data_lookup h1 (VRef io) nm = Some (VRef g) /\
    length h <= g /\
    fn_of h1 (VRef g) = Some (FGenerated (VRef (length h))).
Proof.
  intros R Hc Hio Hn Hslot.
  pose proof (realm_ok_length _ R) as Hwin.
  set (T := template_object (VRef cl) (VStr nm) (length h)).
  set (G := closure false (FGenerated (VRef (length h)))).
  destruct (assign_prop_any _ _ _ _ (VRef (S (S (S (S (length h)))))) Hslot)
    as [p Hp].
  destruct (assign_prop_shape _ _ _ _ _ Hp) as (en & cf & ->).
  assert (io < length h) as Hlt.
  { unfold assign_prop in Hp. destruct (h !! io) eqn:E; [|discriminate].
    eapply lookup_lt_Some; eauto. }
  exists (store h io nm (PData (VRef (S (S (S (S (length h)))))) true en cf)
          ++ [T; plain; plain; plain; G]),
         (S (S (S (S (length h))))).
  split; [|split; [|split; [|split; [|split]]]].
  - intros k. rewrite (censor_class_step _ _ _ _ Hc).
    rewrite (new_CensorClass_registries _ h cl _ _ (VStr nm) R (proj1 Hc) Hn).
    assert (match nth 1 options VUndefined with
            | VUndefined => VRef window
            | _ => nth 1 options VUndefined
            end = VRef io) as ->.
    { destruct (nth 1 options VUndefined); simpl in Hio; congruence. }
    unfold strict_eq. rewrite bool_decide_eq_false_2 by discriminate.
    cbn [negb]. fold T.
    assert (realm_ok (h ++ [T; plain; plain; plain])) as RT
      by apply realm_ok_alloc, R.
    assert ((h ++ [T; plain; plain; plain]) !! length h = Some T) as ET
      by (apply list_lookup_middle; reflexivity).
    unfold bind at 1.
    erewrite bind_ret.
    2:{ apply js_get_data. eapply data_lookup_own; [exact ET | reflexivity]. }
    erewrite bind_ret.
    2:{ rewrite (call_method_dispatch env _ _ _ _ FGenFunc).
        - cbn [dispatch]. unfold CensorClass_genFunc, alloc. reflexivity.
        - unfold method_lookup, data_lookup.
          rewrite (resolve_via_realm _ _ _ "genFunc"
                     (Some (CensorClassPrototype, method genFuncFn))
                     RT Hwin ET) by reflexivity.
          apply realm_fn_of; [exact RT | unfold genFuncFn, window; lia |].
          reflexivity. }
    erewrite bind_ret by reflexivity.
    rewrite <- app_assoc, length_app. simpl app. simpl length.
    replace (length h + 4) with (S (S (S (S (length h))))) by lia.
    erewrite js_set_plain.
    2:{ eapply frame_assign_prop;
          [apply (frame_alloc [] io) | apply not_elem_of_nil | exact Hp]. }
    rewrite store_app_l by exact Hlt. reflexivity.
  - eapply frame_trans; [|apply frame_alloc].
    apply frame_store, list_elem_of_here.
  - rewrite lookup_app_r by (rewrite store_length; lia).
    rewrite store_length, Nat.sub_diag. reflexivity.
  - eapply data_lookup_of_own. rewrite own_app_l by (now rewrite store_length).
    unfold assign_prop in Hp. destruct (h !! io) as [ob|] eqn:E; [|discriminate].
    eapply own_store_eq; eauto.
  - lia.
  - simpl. rewrite lookup_app_r by (rewrite store_length; lia).
    rewrite store_length.
    replace (S (S (S (S (length h)))) - length h) with 4 by lia.
    reflexivity.
Qed.

Lemma censor_class_implemented_witness :
  exists h1 g,
    (forall k, censor (call_fn ex_env (S k)) (VRef ex_C) [VStr "Renamed"]
                 ex_heap
               = (Ret (VRef (length ex_heap)), h1)) /\
    frame ["Renamed"] window ex_heap h1 /\
    h1 !! length ex_heap
    = Some (template_object (VRef ex_C) (VStr "Renamed") (length ex_heap)) /\
    data_lookup h1 (VRef window) "Renamed" = Some (VRef g) /\
    length ex_heap <= g /\
    fn_of h1 (VRef g) = Some (FGenerated (VRef (length ex_heap))).
Proof.
  apply (censor_class_implemented ex_env ex_heap ex_C [VStr "Renamed"]
           window "Renamed").
  - apply realm_ok_app.
  - exact ex_class_value.
  - reflexivity.
  - reflexivity.
  - eexists; reflexivity.
Defined.

(** ** Registrations on a template *)

(** X13. [whenCall], [whenAttr] and [on] of a template only record:
    each stores the handle under the given name in its own registry and
    returns the template; a second registration under the same name
    replaces the first; nothing but that one entry of that registry is
    changed (the class and its prototype are not touched). *)
Theorem CensorClass_registrations_record (call : caller) field record
    h t r w en cf nm handle1 handle2 :
  (field, record) ∈ registrations ->
  own h t field = Some (PData (VRef r) w en cf) ->
  r <> t ->
  is_Some (assign_prop h r nm VUndefined) ->
  exists h1 h2,
    record call (VRef t) (VStr nm) handle1 h = (Ret (VRef t), h1) /\
    data_lookup h1 (VRef r) nm = Some handle1 /\
    record call (VRef t) (VStr nm) handle2 h1 = (Ret (VRef t), h2) /\
    data_lookup h2 (VRef r) nm = Some handle2 /\
    frame [nm] r h h2.
Proof.
  intros Hin Ht Hne Hslot.
  destruct (assign_prop_any _ _ _ _ handle1 Hslot) as [p1 Hp1].
  destruct (assign_prop_shape _ _ _ _ _ Hp1) as (en1 & cf1 & ->).
  assert (exists rob, h !! r = Some rob) as [rob Hr].
  { unfold assign_prop in Hp1. destruct (h !! r); [eauto | discriminate]. }
  set (h1 := store h r nm (PData handle1 true en1 cf1)).
  assert (frame [nm] r h h1) as F1 by apply frame_store, list_elem_of_here.
  assert (own h1 r nm = Some (PData handle1 true en1 cf1)) as Ho1
    by (eapply own_store_eq; eauto).
  assert (assign_prop h1 r nm handle2 = Some (PData handle2 true en1 cf1))
    as Hp2.
  { unfold own in Ho1. destruct (h1 !! r) as [rob1|] eqn:E1; [|discriminate].
    eapply assign_prop_own; eauto. }
  set (h2 := store h1 r nm (PData handle2 true en1 cf1)).
  assert (frame [nm] r h1 h2) as F2 by apply frame_store, list_elem_of_here.
  assert (forall hX, frame [nm] r h hX ->
            data_lookup hX (VRef t) field = Some (VRef r)) as Hreg.
  { intros hX F. unfold own in Ht.
    destruct (h !! t) as [tob|] eqn:Et; [|discriminate].
    eapply data_lookup_own; [|exact Ht].
    eapply frame_lookup_other; eauto. }
  assert (forall hX p handle,
            data_lookup hX (VRef t) field = Some (VRef r) ->
            assign_prop hX r nm handle = Some p ->
            record call (VRef t) (VStr nm) handle hX
            = (Ret (VRef t), store hX r nm p)) as Hrun.
  { intros hX p handle Hd Hp.
    assert (forall f,
              (let! registry := js_get call (VRef t) f in
               let! key := string_arg (VStr nm) in
               js_set call true registry key handle;;; ret (VRef t)) hX
              = (if decide (f = field) then (Ret (VRef t), store hX r nm p)
                 else (let! registry := js_get call (VRef t) f in
                       let! key := string_arg (VStr nm) in
                       js_set call true registry key handle;;;
                       ret (VRef t)) hX)) as Hbody.
    { intros f. destruct (decide (f = field)) as [->|]; [|reflexivity].
      erewrite bind_ret by (apply js_get_data; exact Hd).
      erewrite bind_ret by reflexivity.
      erewrite bind_ret by (apply js_set_plain; exact Hp).
      reflexivity. }
    unfold registrations in Hin.
    rewrite !elem_of_cons, elem_of_nil in Hin.
    destruct Hin as [E|[E|[E|[]]]]; injection E as -> ->.
    - specialize (Hbody "#callHandles"). now rewrite decide_True in Hbody.
    - specialize (Hbody "#attrHandles"). now rewrite decide_True in Hbody.
    - specialize (Hbody "#eventHandles"). now rewrite decide_True in Hbody. }
  exists h1, h2. split; [|split; [|split; [|split]]].
  - apply Hrun; [apply Hreg, frame_refl | exact Hp1].
  - eapply data_lookup_of_own; eauto.
  - apply Hrun; [apply Hreg, F1 | exact Hp2].
  - eapply data_lookup_of_own. unfold h2.
    unfold own in Ho1. destruct (h1 !! r) as [rob1|] eqn:E1; [|discriminate].
    eapply own_store_eq; eauto.
  - eapply frame_trans; eauto.
Qed.

Lemma CensorClass_registrations_record_witness :
  exists h1 h2,
    CensorClass_whenCall (call_fn ex_env 9) (VRef ex_template) (VStr "m")
      (VRef ex_ctx_handle) ex_template_heap
    = (Ret (VRef ex_template), h1) /\
    data_lookup h1 (VRef 30) "m" = Some (VRef ex_ctx_handle) /\
    CensorClass_whenCall (call_fn ex_env 9) (VRef ex_template) (VStr "m")
      (VRef ex_pass_handle) h1
    = (Ret (VRef ex_template), h2) /\
    data_lookup h2 (VRef 30) "m" = Some (VRef ex_pass_handle) /\
    frame ["m"] 30 ex_template_heap h2.
Proof.
  apply (CensorClass_registrations_record (call_fn ex_env 9) "#callHandles"
           CensorClass_whenCall ex_template_heap ex_template 30
           true true true "m" (VRef ex_ctx_handle) (VRef ex_pass_handle)).
  - apply list_elem_of_here.
  - reflexivity.
  - discriminate.
  - eexists; reflexivity.
Defined.

(** * The dispatcher, once more *)

(** X14. [censor] classifies its argument by [typeof] first and by
    [instanceof Object] second, and ignores further options for an
    object: a value of type object gets a new engine around it, with
    the store extended by that engine alone; a value that is neither an
    object nor a function is refused with a TypeError that names its
    type, and so is a function that does not inherit from
    [Object.prototype]; a refusal leaves the store as it was. *)
Theorem censor_classification (call : caller) h v options :
  (typeof h v = "object" ->
   censor call v options h
   = (Ret (VRef (length h)), h ++ [engine_object v])) /\
  (typeof h v <> "object" -> typeof h v <> "function" ->
   censor call v options h
   = (Throw (TypeError ("Can't install censor on " +:+ typeof h v)), h)) /\
  (forall l ob,
     v = VRef l -> h !! l = Some ob -> typeof h v = "function" ->
     proto_reaches (length h) h (o_proto ob) ObjectPrototype = Some false ->
     censor call v options h
     = (Throw (TypeError "Can't install censor on function"), h)).
Proof.
  split; [|split].
  - intros Hty. destruct v; try discriminate Hty.
    + unfold censor, new_CensorObject.
      erewrite bind_ret by reflexivity. cbn [typeof bool_decide].
      rewrite bool_decide_eq_true_2 by reflexivity.
      erewrite bind_ret by reflexivity.
      erewrite bind_ret by (apply typeCheck_ok; reflexivity).
      erewrite bind_ret.
      2:{ apply js_set_plain. eapply assign_prop_own.
          - apply list_lookup_middle. reflexivity.
          - reflexivity. }
      rewrite store_app_mid. reflexivity.
    + now apply censor_object.
  - apply censor_primitive.
  - intros l ob -> Hl Hty Hreach. unfold censor.
    erewrite bind_ret by reflexivity.
    rewrite Hty. rewrite bool_decide_eq_false_2 by discriminate.
    erewrite bind_ret.
    2:{ unfold instanceof_Object, bind, get_obj. rewrite Hl, Hreach.
        reflexivity. }
    cbv iota. unfold bind, typeof_m, throw. now rewrite Hty.
Qed.

Lemma censor_classification_witness :
  censor (call_fn ex_env4 9) (VRef ex_instance) [VNum 1] ex_heap4
  = (Ret (VRef (length ex_heap4)), ex_heap4 ++ [engine_object (VRef ex_instance)])
  /\ censor (call_fn ex_env4 9) (VNum 3) [] ex_heap4
     = (Throw (TypeError ("Can't install censor on " +:+ "number")), ex_heap4)
  /\ censor (call_fn ex_env4 9) (VRef ex_bare_function) [] ex_heap4
     = (Throw (TypeError "Can't install censor on function"), ex_heap4).
Proof.
  split; [|split].
  - apply (censor_classification (call_fn ex_env4 9) ex_heap4
             (VRef ex_instance) [VNum 1]).
    reflexivity.
  - apply (censor_classification (call_fn ex_env4 9) ex_heap4 (VNum 3) []);
      discriminate.
  - eapply (censor_classification (call_fn ex_env4 9) ex_heap4
              (VRef ex_bare_function) []); reflexivity.
Defined.

(** * The deprecated context class *)

Section CallContext.

Variable env : nat -> option hostfn.
Variables (hp : heap) (c a e l P ctor nf hid : loc) (nm : string).
Variables (args : list value) (f : value).

Hypothesis Hrealm : realm_ok hp.
Hypothesis Hproto : hp !! P = Some (CensorCallContext_prototype ctor nf).
Hypothesis Hnext : fn_of hp (VRef nf) = Some (FHost false hid).
Hypothesis Henv : env hid = Some CensorCallContext_next.
Hypothesis Hctx : hp !! c = Some (call_context_object P (VRef e) nm (VRef a)).
Hypothesis Hargs : hp !! a = Some (array args).
Hypothesis Heng : hp !! e = Some (engine_object (VRef l)).
Hypothesis Horig : data_lookup hp (VRef l) ("_CENSOR_" +:+ nm) = Some f.

Lemma call_context_next_lookup :
  data_lookup hp (VRef c) "next" = Some (VRef nf).
Proof.
  unfold data_lookup.
  rewrite (resolve_step hp c _ "next" 1 (Some (P, method nf)) Hctx);
    [reflexivity | reflexivity | |].
  - cbn [call_context_object o_proto lookup_chain]. rewrite Hproto.
    reflexivity.
  - apply realm_ok_length in Hrealm. unfold window in Hrealm. lia.
Qed.

Lemma call_context_pass_lookup :
  method_lookup hp (VRef c) "pass" = Some FContextPass.
Proof.
  pose proof (realm_ok_length _ Hrealm) as Hwin.
  assert (P < length hp) as HPlt by (eapply lookup_lt_Some; eauto).
  unfold method_lookup, data_lookup.
  rewrite (resolve_step hp c _ "pass" 2
             (Some (CensorContextPrototype, method passFn)) Hctx);
    [| reflexivity | |].
  - apply realm_fn_of; [exact Hrealm | unfold passFn, window; lia |].
    reflexivity.
  - cbn [call_context_object o_proto lookup_chain]. rewrite Hproto.
    cbn [CensorCallContext_prototype o_props o_proto].
    change ((<["constructor" := method ctor]> (<["next" := method nf]> ∅)
             : gmap string prop) !! "pass") with (@None prop).
    cbv iota.
    rewrite Hrealm by (unfold CensorContextPrototype, window; lia).
    reflexivity.
  - unfold window in *. lia.
Qed.

(** X15. A context of the deprecated class [CensorCallContext] reaches
    the archived original through [parent.call]: its [next] overrides
    the one of [CensorContext], and the inherited [pass] dispatches to
    that override, so [pass()] applies the original to the target with
    the stored arguments although no callback was ever assigned. *)
Theorem CensorCallContext_reaches_original n :
  data_lookup hp (VRef c) "callback" = Some VUndefined /\
  (forall args',
     call_method (call_fn env (S (S n))) (VRef c) "next" args' hp
     = call_fn env n f (VRef l) args' hp) /\
  call_method (call_fn env (S (S (S n)))) (VRef c) "pass" [] hp
  = call_fn env n f (VRef l) args hp.
Proof.
  pose proof (engine_above_realm _ _ _ Hrealm Heng) as He_ge.
  assert (forall k args',
            call_fn env (S (S k)) (VRef nf) (VRef c) args' hp
            = call_fn env k f (VRef l) args' hp) as Hcall.
  { intros k args'.
    rewrite (call_fn_dispatch env _ _ _ _ _ _ Hnext).
    cbn [dispatch]. rewrite Henv. unfold CensorCallContext_next.
    erewrite bind_ret.
    2:{ apply js_get_data. eapply data_lookup_own; [exact Hctx | reflexivity]. }
    assert (data_lookup hp (VRef e) "call" = Some (VRef callFn)) as Hd.
    { unfold data_lookup.
      now rewrite (resolve_via_realm hp e _ "call"
                     (Some (CensorObjectPrototype, method callFn))
                     Hrealm He_ge Heng) by reflexivity. }
    erewrite bind_ret by (apply js_get_data; exact Hd).
    erewrite bind_ret.
    2:{ apply js_get_data. eapply data_lookup_own; [exact Hctx | reflexivity]. }
    pose proof (engine_call_step env hp e l Hrealm He_ge Heng nm f k args'
                  Horig) as Hstep.
    unfold call_method in Hstep.
    erewrite bind_ret in Hstep by (apply js_get_data; exact Hd).
    exact Hstep. }
  split; [|split].
  - eapply data_lookup_own; [exact Hctx | reflexivity].
  - intros args'. unfold call_method.
    erewrite bind_ret by (apply js_get_data, call_context_next_lookup).
    apply Hcall.
  - rewrite (call_method_dispatch env _ _ _ _ _ _ call_context_pass_lookup).
    cbn [dispatch]. unfold CensorContext_pass.
    erewrite bind_ret by (apply js_get_data, call_context_next_lookup).
    erewrite bind_ret.
    2:{ apply js_get_data. eapply data_lookup_own; [exact Hctx | reflexivity]. }
    erewrite bind_ret.
    2:{ unfold spread, bind, get_obj. rewrite Hargs. reflexivity. }
    apply Hcall.
Qed.

End CallContext.

Lemma CensorCallContext_reaches_original_witness :
  data_lookup ex_heap4 (VRef ex_call_context) "callback" = Some VUndefined /\
  (forall args',
     call_method (call_fn ex_env4 (S (S 1))) (VRef ex_call_context) "next"
       args' ex_heap4
     = call_fn ex_env4 1 (VRef ex_m) (VRef ex_archived_target) args' ex_heap4)
  /\
  call_method (call_fn ex_env4 (S (S (S 1)))) (VRef ex_call_context) "pass" []
    ex_heap4
  = call_fn ex_env4 1 (VRef ex_m) (VRef ex_archived_target) [VNum 1; VNum 2]
      ex_heap4.
Proof.
  apply (CensorCallContext_reaches_original ex_env4 ex_heap4 ex_call_context
           ex_call_context_args ex_archived_engine ex_archived_target
           ex_CensorCallContext_prototype ex_CensorCallContext
           ex_CensorCallContext_next 8 "m" [VNum 1; VNum 2] (VRef ex_m)).
  - do 3 apply realm_ok_alloc. apply realm_ok_app.
  - reflexivity.
  - reflexivity.
  - reflexivity.
  - reflexivity.
  - reflexivity.
  - reflexivity.
  - reflexivity.
Defined.

(** In the example, [pass()] on the deprecated context gives the 3 of
    the original [m(1, 2)]. *)
Example ex_call_context_pass :
  fst (call_method (call_fn ex_env4 9) (VRef ex_call_context) "pass" []
         ex_heap4)
  = Ret (VNum 3).
Proof. vm_compute. reflexivity. Qed.

(** * The lookup bound as a parameter *)

Section WalkBound.

Variable env : nat -> option hostfn.
Variables (k : nat) (h : heap) (name : string) (maxdepth : nat).

Lemma getPropertyDescriptor_loop_bound fuel :
  forall depth o,
    depth + fuel = S maxdepth ->
    forallb (regular_level h) (levels fuel h o) = true ->
    walk_outcome h name (levels fuel h o)
      (ancestor (length (levels fuel h o)) h o)
      (getPropertyDescriptor_loop (call_fn env (S k)) fuel o (VStr name)
         depth maxdepth h).
Proof.
  induction fuel as [|fuel IH]; intros depth o Hd Hreg.
  - unfold walk_outcome. simpl.
    destruct o; try exact I.
    + reflexivity.
    + intros [c Hc].
      erewrite bind_ret by (apply js_get_data; exact Hc).
      replace (depth <=? maxdepth)%nat with false
        by (symmetry; apply Nat.leb_gt; lia).
      now rewrite andb_false_r.
  - destruct o; try exact I.
    + reflexivity.
    + simpl levels in *. destruct (h !! l) as [ob|] eqn:El.
      * simpl in Hreg. apply andb_true_iff in Hreg as [Hl Hreg].
        apply regular_level_spec in Hl as [[c Hc] Hhas].
        unfold walk_outcome. cbn [walk length ancestor]. rewrite El.
        cbn [getPropertyDescriptor_loop].
        erewrite bind_ret by (apply js_get_data; exact Hc).
        unfold constructor_is_Object. rewrite Hc. unfold strict_eq.
        destruct (decide (c = VRef ObjectCtor)) as [->|Hne].
        { rewrite !bool_decide_eq_true_2 by reflexivity. reflexivity. }
        rewrite (bool_decide_eq_false_2 (c = VRef ObjectCtor)) by exact Hne.
        rewrite (bool_decide_eq_false_2 (Some c = Some (VRef ObjectCtor)))
          by congruence.
        replace (depth <=? maxdepth)%nat with true
          by (symmetry; apply Nat.leb_le; lia).
        cbn [negb andb].
        erewrite bind_ret
          by (eapply call_method_hasOwnProperty; eauto).
        unfold own. rewrite El.
        destruct (o_props ob !! name) as [p|] eqn:Ep.
        -- rewrite bool_decide_eq_true_2 by eauto. cbn [to_boolean].
           unfold getOwnPropertyDescriptor, bind, get_obj.
           rewrite El, Ep. reflexivity.
        -- rewrite bool_decide_eq_false_2 by (intros [? ?]; discriminate).
           cbn [to_boolean].
           erewrite bind_ret
             by (unfold getPrototypeOf, bind, get_obj; rewrite El;
                 reflexivity).
           specialize (IH (S depth) (o_proto ob) ltac:(lia) Hreg).
           exact IH.
      * unfold walk_outcome. cbn [walk length ancestor].
        intros [c Hc]. unfold data_lookup, resolve in Hc.
        destruct (length h); simpl in Hc; [discriminate|].
        rewrite El in Hc. discriminate.
Qed.

End WalkBound.

(** X16. For every bound [maxdepth], [getPropertyDescriptor(obj, name,
    maxdepth)] examines the first [maxdepth + 1] objects of the
    prototype chain, the object itself included, and no more: with
    [maxdepth = 0] only the object itself is examined, so a property
    that its prototype owns is not found. *)
Theorem getPropertyDescriptor_bound (env : nat -> option hostfn) k h o name
    maxdepth :
  forallb (regular_level h) (levels (S maxdepth) h o) = true ->
  walk_outcome h name (levels (S maxdepth) h o)
    (ancestor (length (levels (S maxdepth) h o)) h o)
    (getPropertyDescriptor (call_fn env (S k)) o (VStr name) maxdepth h).
Proof.
  intros Hreg. unfold getPropertyDescriptor.
  now apply getPropertyDescriptor_loop_bound.
Qed.

Lemma getPropertyDescriptor_bound_witness :
  getPropertyDescriptor (call_fn ex_env 9) (VRef ex_instance) (VStr "x") 0
    ex_heap
  = (Ret VNull, ex_heap)
  /\ getPropertyDescriptor (call_fn ex_env 9) (VRef ex_instance) (VStr "x") 1
       ex_heap
     = (Ret (VRef (length ex_heap)),
        ex_heap
        ++ [descriptor_of
              (PAccessor (VRef ex_getter) (VRef ex_setter) false true)]).
Proof.
  split.
  - exact (getPropertyDescriptor_bound ex_env 8 ex_heap (VRef ex_instance)
             "x" 0 eq_refl (ex_intro _ (VRef ex_C) eq_refl)).
  - exact (getPropertyDescriptor_bound ex_env 8 ex_heap (VRef ex_instance)
             "x" 1 eq_refl).
Defined.

(** * The hash *)

Lemma to_int32_range z : (- 2 ^ 31 <= to_int32 z < 2 ^ 31)%Z.
Proof.
  unfold to_int32.
  pose proof (Z.mod_pos_bound (z + 2 ^ 31) (2 ^ 32) ltac:(lia)). lia.
Qed.

Lemma to_uint32_range z : (0 <= to_uint32 z < 2 ^ 32)%Z.
Proof. unfold to_uint32. apply Z.mod_pos_bound. lia. Qed.

Lemma to_int32_mod z : to_int32 z = to_int32 (z mod 2 ^ 32).
Proof. unfold to_int32. now rewrite Zplus_mod_idemp_l. Qed.

Lemma bit_xor_mod_r a b : bit_xor a b = bit_xor a (b mod 2 ^ 32).
Proof. unfold bit_xor. now rewrite (to_int32_mod b). Qed.

Lemma bit_and_low_bits z : bit_and 2097151 z = (to_int32 z mod 2 ^ 21)%Z.
Proof.
  unfold bit_and. change (to_int32 2097151) with (Z.ones 21).
  rewrite Z.land_comm. apply Z.land_ones. lia.
Qed.

(** X17. The hash is a non-negative integer below [2^53], whatever the
    string and the seed: its high part is 21 bits of [h2] and its low
    part the 32 bits of [h1], so the sum is exact in a double and the
    result is a safe integer. *)
Theorem cyrb53_range str seed : (0 <= cyrb53 str seed < 2 ^ 53)%Z.
Proof.
  unfold cyrb53. destruct (cyrb53_loop _ str) as [h1 h2].
  rewrite bit_and_low_bits.
  match goal with
  | |- context [ (to_int32 ?a mod 2 ^ 21)%Z ] =>
      pose proof (Z.mod_pos_bound (to_int32 a) (2 ^ 21) ltac:(lia))
  end.
  match goal with
  | |- context [ unsigned_shift_right ?a 0 ] =>
      assert (0 <= unsigned_shift_right a 0 < 2 ^ 32)%Z
        by (unfold unsigned_shift_right; change (Z.land 0 31) with 0%Z;
            rewrite Z.shiftr_0_r; apply to_uint32_range)
  end.
  lia.
Qed.

(** X18. Only the low 32 bits of the seed enter the hash: two seeds
    that agree modulo [2^32] give the same hash for every string. *)
Theorem cyrb53_seed_32_bits str seed seed' :
  (seed mod 2 ^ 32 = seed' mod 2 ^ 32)%Z ->
  cyrb53 str seed = cyrb53 str seed'.
Proof.
  intros E. unfold cyrb53.
  rewrite !(bit_xor_mod_r _ seed), E, !(bit_xor_mod_r _ seed').
  reflexivity.
Qed.

Lemma cyrb53_seed_32_bits_witness :
  cyrb53 [97; 98; 99]%Z 1 = cyrb53 [97; 98; 99]%Z 4294967297.
Proof.
  apply (cyrb53_seed_32_bits [97; 98; 99]%Z 1 4294967297). reflexivity.
Defined.

(** The values published with the hash, for ["a"], ["b"], ["revenge"]
    and ["revenue"] with seed 1. *)
Example cyrb53_published_values :
  cyrb53 [97]%Z 0 = 7929297801672961%Z
  /\ cyrb53 [98]%Z 0 = 8684336938537663%Z
  /\ cyrb53 [114; 101; 118; 101; 110; 103; 101]%Z 0 = 4051478007546757%Z
  /\ cyrb53 [114; 101; 118; 101; 110; 117; 101]%Z 1 = 8697026808958300%Z.
Proof. vm_compute. repeat split. Qed.

(** * What a registration leaves alone *)




Section AttributeBypass.

Variable env : nat -> option hostfn.
Variables (h : heap) (e l hl : loc) (nm : string) (p : prop).
Variables (has_get has_set : bool).

Hypothesis Ht : attr_target h e l nm p.
Hypothesis Hh : handles_record h hl l has_get has_set.

Local Abbreviation h1 := (whenAttr_heap h e l nm (VRef hl) p has_get has_set).



End AttributeBypass.



(** * Targets that refuse the shadow entry *)




